(** * Card-sheet printer (main.py): a shallow embedding and its properties

    The program lists the image files of a folder, loads them on a thread
    pool (flattening transparency onto white), and lays them out on A4
    pages as a 3 x 3 grid of 59 x 86 mm cards separated by 2 mm gaps in
    which square cut guides are drawn.

    Lengths are reportlab points.  The program computes them with Python
    floats; here they are exact rationals over an arbitrary positive unit
    [mm] (reportlab.lib.units.mm), so every statement about a length is a
    statement "in mm, before unit conversion". *)

From Stdlib Require Import ZArith QArith Lqa Lia List String Ascii.
From Stdlib Require Import Permutation Sorted.
From stdpp Require Import base list gmap strings pretty sorting.

(** ** Exceptions and fallible computations *)

(** The subclasses of Python's [Exception] that the library calls used by
    main.py can raise. *)
Inductive exn :=
| FileNotFoundError
| PermissionError
| UnidentifiedImageError
| OSError
| ValueError
| IndexError
| DrawError.

Inductive result (A : Type) :=
| Ok (a : A)
| Raise (e : exn).
Arguments Ok {A} a.
Arguments Raise {A} e.

#[global] Instance result_ret : MRet result := fun A a => Ok a.
#[global] Instance result_bind : MBind result := fun A B f m =>
  match m with
  | Ok a => f a
  | Raise e => Raise e
  end.

(** [for x in l: st = body(x, st)], stopping at the first exception. *)
Fixpoint for_each {A S : Type} (l : list A) (body : A -> S -> result S)
    (st : S) : result S :=
  match l with
  | [] => Ok st
  | x :: l' =>
      match body x st with
      | Ok st' => for_each l' body st'
      | Raise e => Raise e
      end
  end.

(** [for i in range(n)]. *)
Definition for_range {S : Type} (n : nat) (body : nat -> S -> result S)
    (st : S) : result S :=
  for_each (seq 0 n) body st.

(** ** Pillow (PIL.Image), as far as load_image uses it *)

Module PIL.

Local Open Scope Z_scope.

Definition rgb : Type := Z * Z * Z.
Definition rgba : Type := Z * Z * Z * Z.

(** Pixel data in raster order; the constructor is the image mode.
    [ModeLA] is grey with alpha, [ModeP] holds indices into a palette
    whose entries carry the alpha the file gives them (255 when it gives
    none), [ModeI16] is 16-bit grey ("I;16").  [ModeLKey] and
    [ModeRGBKey] are the modes L and RGB of a file that names one colour
    as transparent (the tRNS chunk of a PNG, [info["transparency"]]).
    A 1-bit image is held as a byte per pixel, 0 or 255, and converts
    like mode L. *)
Inductive pixels :=
| ModeL (d : list Z)
| ModeRGB (d : list rgb)
| ModeRGBA (d : list rgba)
| ModeLA (d : list (Z * Z))
| ModeP (d : list Z) (palette : list rgba)
| ModeI16 (d : list Z)
| ModeLKey (d : list Z) (key : Z)
| ModeRGBKey (d : list rgb) (key : rgb).

(** An image in memory: (width, height) and its pixels. *)
Record Image := { size : nat * nat; data : pixels }.

(** What [Image.open] returns: the header has been read, the pixels are
    decoded on first use and decoding may fail. *)
Record ImageFile := { header_size : nat * nat; decode : result pixels }.

(** [ImageFile.load]. *)
Definition load (f : ImageFile) : result Image :=
  d ← decode f; Ok {| size := header_size f; data := d |}.

(** The 8-bit grey level taken from a 16-bit sample: its low byte when
    the high byte is zero, 255 otherwise. *)
Definition clip16 (v : Z) : Z :=
  if Z.shiftr v 8 =? 0 then Z.land v 255 else 255.

(** The palette entry of an index; an entry the file does not give is
    opaque black. *)
Definition palette_colour (palette : list rgba) (i : Z) : rgba :=
  nth (Z.to_nat i) palette (0, 0, 0, 255).

Definition drop_alpha (p : rgba) : rgb :=
  let '(r, g, b, _) := p in (r, g, b).

Definition rgb_eqb (p q : rgb) : bool :=
  let '(r, g, b) := p in
  let '(r', g', b') := q in
  (r =? r') && (g =? g') && (b =? b').

(** [im.convert("RGBA")]: grey levels are replicated and a missing alpha
    band is filled with 255; an index is replaced by its palette entry;
    16-bit grey is clipped to 8 bits; a pixel of the transparent colour
    keeps its colour and gets alpha 0. *)
Definition convert_RGBA (im : Image) : Image :=
  {| size := size im;
     data := ModeRGBA
       match data im with
       | ModeL d => map (fun v => (v, v, v, 255)) d
       | ModeRGB d => map (fun '(r, g, b) => (r, g, b, 255)) d
       | ModeRGBA d => d
       | ModeLA d => map (fun '(v, a) => (v, v, v, a)) d
       | ModeP d palette => map (palette_colour palette) d
       | ModeI16 d => map (fun v => (clip16 v, clip16 v, clip16 v, 255)) d
       | ModeLKey d key =>
           map (fun v => (v, v, v, if v =? key then 0 else 255)) d
       | ModeRGBKey d key =>
           map (fun '(r, g, b) =>
                  (r, g, b, if rgb_eqb (r, g, b) key then 0 else 255)) d
       end |}.

(** [im.convert("RGB")]: the alpha band, or the alpha of the palette
    entry, is dropped; a transparent colour stays named. *)
Definition convert_RGB (im : Image) : Image :=
  {| size := size im;
     data :=
       match data im with
       | ModeL d => ModeRGB (map (fun v => (v, v, v)) d)
       | ModeRGB d => ModeRGB d
       | ModeRGBA d => ModeRGB (map drop_alpha d)
       | ModeLA d => ModeRGB (map (fun '(v, _) => (v, v, v)) d)
       | ModeP d palette =>
           ModeRGB (map (fun i => drop_alpha (palette_colour palette i)) d)
       | ModeI16 d =>
           ModeRGB (map (fun v => (clip16 v, clip16 v, clip16 v)) d)
       | ModeLKey d key =>
           ModeRGBKey (map (fun v => (v, v, v)) d) (key, key, key)
       | ModeRGBKey d key => ModeRGBKey d key
       end |}.

(** [Image.new("RGBA", size, color)]. *)
Definition new_RGBA (sz : nat * nat) (color : rgba) : Image :=
  {| size := sz; data := ModeRGBA (repeat color (fst sz * snd sz)) |}.

Definition u8 (z : Z) : Z := z mod 2 ^ 8.
Definition u32 (z : Z) : Z := z mod 2 ^ 32.

Definition PRECISION_BITS : Z := 7.
Definition SHIFTFORDIV255 (a : Z) : Z := Z.shiftr (Z.shiftr a 8 + a) 8.

(** One colour band of the blend. *)
Definition blend_band (s d coef1 coef2 : Z) : Z :=
  let tmp := u32 (s * coef1 + d * coef2) in
  u8 (Z.shiftr
        (SHIFTFORDIV255 (u32 (tmp + Z.shiftl 128 PRECISION_BITS)))
        PRECISION_BITS).

(** One pixel of ImagingAlphaComposite: [src] over [dst], in integer
    arithmetic with 7 extra bits of precision. *)
Definition composite_pixel (dst src : rgba) : rgba :=
  let '(dr, dg, db, da) := dst in
  let '(sr, sg, sb, sa) := src in
  if sa =? 0 then dst
  else
    let blend := u32 (da * (255 - sa)) in
    let outa255 := u32 (sa * 255 + blend) in
    let coef1 :=
      u32 (sa * 255 * 255 * Z.shiftl 1 PRECISION_BITS / outa255) in
    let coef2 := u32 (255 * Z.shiftl 1 PRECISION_BITS - coef1) in
    (blend_band sr dr coef1 coef2,
     blend_band sg dg coef1 coef2,
     blend_band sb db coef1 coef2,
     u8 (SHIFTFORDIV255 (u32 (outa255 + 128)))).

Fixpoint composite_data (dst src : list rgba) : list rgba :=
  match dst, src with
  | d :: dst', s :: src' => composite_pixel d s :: composite_data dst' src'
  | _, _ => []
  end.

(** [Image.alpha_composite(im1, im2)]: both images must be RGBA and of
    the same size. *)
Definition alpha_composite (im1 im2 : Image) : result Image :=
  match data im1, data im2 with
  | ModeRGBA d1, ModeRGBA d2 =>
      if decide (size im1 = size im2)
      then Ok {| size := size im1; data := ModeRGBA (composite_data d1 d2) |}
      else Raise ValueError
  | _, _ => Raise ValueError
  end.

End PIL.

(** ** reportlab: units, page sizes, ImageReader and the canvas *)

(** [reportlab.lib.utils.ImageReader] around an in-memory PIL image. *)
Record ImageReader := { reader_image : PIL.Image }.

Inductive canvas_op :=
| DrawImage (image : ImageReader) (x y width height : Q)
    (preserveAspectRatio : bool) (anchor : string)
| Rect (x y width height : Q) (stroke fill : bool)
| DrawString (x y : Q) (text : string)
| SetLineWidth (width : Q).

(** A canvas: the pages already shown and the operations of the page in
    progress; [saved] is set once the document has been written. *)
Record Canvas := {
  filename : string;
  pages : list (list canvas_op);
  code : list canvas_op;
  saved : bool
}.

Definition Canvas_new (filename : string) : Canvas :=
  {| filename := filename; pages := []; code := []; saved := false |}.

Definition emit (c : Canvas) (op : canvas_op) : Canvas :=
  {| filename := filename c; pages := pages c;
     code := code c ++ [op]; saved := saved c |}.

Definition rect (c : Canvas) (x y width height : Q) (stroke fill : bool)
    : Canvas :=
  emit c (Rect x y width height stroke fill).

Definition drawString (c : Canvas) (x y : Q) (text : string) : Canvas :=
  emit c (DrawString x y text).

Definition setLineWidth (c : Canvas) (width : Q) : Canvas :=
  emit c (SetLineWidth width).

Definition showPage (c : Canvas) : Canvas :=
  {| filename := filename c; pages := pages c ++ [code c];
     code := []; saved := saved c |}.

(** ** The environment of a run *)

(** What the operating system and the libraries answer during one run:
    the directory listing, the image behind a path, whether reportlab
    fails to embed a reader, whether the output path can be written, and
    the exception [open] raises for a path that cannot (PermissionError,
    FileNotFoundError for a missing directory, ...). *)
Record World := {
  os_listdir : string -> result (list string);
  Image_open : string -> result PIL.ImageFile;
  drawImage_raises : ImageReader -> bool;
  writable : string -> bool;
  open_error : string -> exn
}.

(** [c.drawImage(img, x, y, width=, height=, preserveAspectRatio=True,
    anchor='c')]. *)
Definition drawImage (w : World) (c : Canvas) (image : ImageReader)
    (x y width height : Q) : result Canvas :=
  if drawImage_raises w image then Raise DrawError
  else Ok (emit c (DrawImage image x y width height true "c")).

(** [c.save()]: a page in progress is shown first, then the file is
    opened and written; what [open] raises is not caught. *)
Definition save (w : World) (c : Canvas) : result Canvas :=
  let c := match code c with [] => c | _ :: _ => showPage c end in
  if writable w (filename c)
  then Ok {| filename := filename c; pages := pages c;
             code := code c; saved := true |}
  else Raise (open_error w (filename c)).

(** ** concurrent.futures: ThreadPoolExecutor.map *)

(** Every item is submitted as a future, numbered by its position.  The
    workers then complete the pending futures in an order the program does
    not control: at each step the next number of [oracle] picks which
    pending future finishes, and its result is stored under the future's
    own number. *)
Fixpoint pool_run {A B : Type} (fn : A -> B) (items : list A) (fuel : nat)
    (pending : list nat) (oracle : list nat) (done : gmap nat B)
    : gmap nat B :=
  match fuel with
  | O => done
  | S fuel' =>
      let pick := (hd 0 oracle `mod` length pending)%nat in
      match pending !! pick with
      | Some i =>
          let done' :=
            match items !! i with
            | Some a => <[i := fn a]> done
            | None => done
            end in
          pool_run fn items fuel' (delete pick pending) (tl oracle) done'
      | None => done
      end
  end.

(** The order in which the futures complete under [oracle]. *)
Fixpoint completion_order (fuel : nat) (pending : list nat)
    (oracle : list nat) : list nat :=
  match fuel with
  | O => []
  | S fuel' =>
      let pick := (hd 0 oracle `mod` length pending)%nat in
      match pending !! pick with
      | Some i => i :: completion_order fuel' (delete pick pending) (tl oracle)
      | None => []
      end
  end.

(** [list(executor.map(fn, items))]: the results are read from the futures
    in submission order, whatever the order of completion. *)
Definition executor_map {A B : Type} (fn : A -> B) (items : list A)
    (oracle : list nat) : list B :=
  let n := length items in
  let done := pool_run fn items n (seq 0 n) oracle ∅ in
  omap (fun i => done !! i) (seq 0 n).

(** ** The program *)

Definition white : PIL.rgba := (255, 255, 255, 255)%Z.

(** The body of the [try] block of load_image. *)
Definition load_image_try (w : World) (path : string) : result ImageReader :=
  f ← Image_open w path;
  img ← PIL.load f;
  let img := PIL.convert_RGBA img in
  let background := PIL.new_RGBA (PIL.size img) white in
  composite ← PIL.alpha_composite background img;
  let composite := PIL.convert_RGB composite in
  Ok {| reader_image := composite |}.

(** [load_image]: [except Exception] turns every failure into [None]. *)
Definition load_image (w : World) (path : string) : option ImageReader :=
  match load_image_try w path with
  | Ok reader => Some reader
  | Raise _ => None
  end.

Definition preload_images (w : World) (oracle : list nat)
    (image_paths : list string) : list (string * option ImageReader) :=
  let readers := executor_map (load_image w) image_paths oracle in
  zip image_paths readers.

(** *** Listing the folder *)

Definition supported_extensions : list string :=
  [".jpg"; ".jpeg"; ".png"; ".bmp"; ".gif"]%string.

(** [str.lower], on the bytes of the UTF-8 encoding: the letters A-Z are
    lowered.  (Python lowers other letters too, but none of them to a
    character of a supported extension.) *)
Definition lower_ascii (c : ascii) : ascii :=
  let n := nat_of_ascii c in
  if (65 <=? n)%nat && (n <=? 90)%nat then ascii_of_nat (n + 32) else c.

Fixpoint lower (s : string) : string :=
  match s with
  | EmptyString => EmptyString
  | String c s' => String (lower_ascii c) (lower s')
  end.

(** [s.endswith(suffix)]. *)
Fixpoint endswith (s suffix : string) : bool :=
  String.eqb s suffix ||
  match s with
  | EmptyString => false
  | String _ s' => endswith s' suffix
  end.

(** [s.endswith(tuple)]. *)
Definition endswith_any (s : string) (suffixes : list string) : bool :=
  existsb (endswith s) suffixes.

(** [s.startswith(prefix)]. *)
Definition startswith (s pre : string) : bool := String.prefix pre s.

Definition sep : string := "/"%string.

(** [os.path.join(a, b)] (posixpath). *)
Definition os_path_join (a b : string) : string :=
  if startswith b sep || String.eqb a EmptyString then b
  else if endswith a sep then (a ++ b)%string
  else (a ++ sep ++ b)%string.

(** [list.sort()] on strings: Python compares strings by code point, which
    is the byte order of their UTF-8 encodings. *)
Fixpoint insert_sorted (x : string) (l : list string) : list string :=
  match l with
  | [] => [x]
  | y :: l' => if String.leb x y then x :: l else y :: insert_sorted x l'
  end.

Fixpoint sort (l : list string) : list string :=
  match l with
  | [] => []
  | x :: l' => insert_sorted x (sort l')
  end.

Definition list_images (image_folder : string) (entries : list string)
    : list string :=
  sort (map (os_path_join image_folder)
          (filter (fun f => endswith_any (lower f) supported_extensions = true)
             entries)).

(** *** Geometry *)

Section Geometry.

(** [reportlab.lib.units.mm]: the number of points in a millimetre. *)
Variable mm : Q.

Local Open Scope Q_scope.

(** [int * float]: the integer is converted. *)
Definition Qint (z : Z) : Q := inject_Z z.
Definition Qnat (n : nat) : Q := inject_Z (Z.of_nat n).

(** [reportlab.lib.pagesizes.A4 = (210*mm, 297*mm)]. *)
Definition A4 : Q * Q := (210 * mm, 297 * mm).

Definition card_width : Q := 59 * mm.
Definition card_height : Q := 86 * mm.
Definition gap : Q := 2 * mm.
Definition columns : nat := 3.
Definition rows : nat := 3.

Definition grid_width : Q :=
  Qnat columns * card_width + Qnat (columns + 1) * gap.
Definition grid_height : Q :=
  Qnat rows * card_height + Qnat (rows + 1) * gap.

Definition page_width : Q := fst A4.
Definition page_height : Q := snd A4.

Definition left_margin : Q := (page_width - grid_width) / 2.
Definition bottom_margin : Q := (page_height - grid_height) / 2.

Definition cell_x (col : nat) : Q :=
  left_margin + gap + Qnat col * (card_width + gap).
Definition cell_y (row : nat) : Q :=
  bottom_margin + gap
  + Qint (Z.of_nat rows - 1 - Z.of_nat row) * (card_height + gap).

Definition x_square (v : nat) : Q := left_margin + Qnat v * (card_width + gap).
Definition y_square (h : nat) : Q := bottom_margin + Qnat h * (card_height + gap).

End Geometry.

Definition cards_per_page : nat := 9.

Definition num_pages (total_cards : nat) : nat :=
  if (0 <? total_cards)%nat
  then (total_cards + cards_per_page - 1) / cards_per_page
  else 1.

(** *** Rendering *)

Definition error_label : string := "加载图片错误"%string.

Definition CR : string := String (ascii_of_nat 13) EmptyString.
Definition LF : string := String (ascii_of_nat 10) EmptyString.

(** The state the page loops work on: the canvas, the number of images
    consumed so far and what has been written to the console. *)
Record render_state := {
  canvas : Canvas;
  card_index : nat;
  stdout : list string
}.

Section Render.

Variable mm : Q.
Variable w : World.
Variable total_cards : nat.
Variable loaded_images : list (string * option ImageReader).

Local Open Scope Q_scope.

(** The rectangle and label drawn where an image could not be shown. *)
Definition draw_placeholder (c : Canvas) (cell_x cell_y : Q) : Canvas :=
  let c := rect c cell_x cell_y (card_width mm) (card_height mm) true false in
  drawString c (cell_x + 5) (cell_y + card_height mm / 2) error_label.

(** The body of the loops over [row] and [col]. *)
Definition draw_cell (row col : nat) (st : render_state)
    : result render_state :=
  let cell_x := cell_x mm col in
  let cell_y := cell_y mm row in
  if (card_index st <? total_cards)%nat then
    match loaded_images !! card_index st with
    | None => Raise IndexError
    | Some (img_path, img_obj) =>
        let c :=
          match img_obj with
          | Some img =>
              match
                drawImage w (canvas st) img cell_x cell_y
                  (card_width mm) (card_height mm)
              with
              | Ok c => c
              | Raise _ => draw_placeholder (canvas st) cell_x cell_y
              end
          | None => draw_placeholder (canvas st) cell_x cell_y
          end in
        let card_index := S (card_index st) in
        let progress :=
          ("生成进度: " ++ pretty card_index ++ "/" ++ pretty total_cards
             ++ " 张图片")%string in
        Ok {| canvas := c; card_index := card_index;
              stdout := stdout st ++ [(CR ++ progress)%string] |}
    end
  else Ok st.

(** The body of the loops over [v] and [h]. *)
Definition draw_guide (v h : nat) (st : render_state) : result render_state :=
  let c := setLineWidth (canvas st) (1 # 2) in
  let c := rect c (x_square mm v) (y_square mm h) (gap mm) (gap mm) true false in
  Ok {| canvas := c; card_index := card_index st; stdout := stdout st |}.

(** The body of the loop over [page]. *)
Definition render_page (page : nat) (st : render_state)
    : result render_state :=
  st ← for_range rows (fun row =>
          for_range columns (fun col => draw_cell row col)) st;
  let st :=
    if (total_cards =? 0)%nat
    then {| canvas := canvas st; card_index := card_index st;
            stdout := stdout st ++ [(CR ++ "生成空白网格页...")%string] |}
    else st in
  st ← for_range (columns + 1) (fun v =>
          for_range (rows + 1) (fun h => draw_guide v h)) st;
  Ok {| canvas := showPage (canvas st); card_index := card_index st;
        stdout := stdout st |}.

Definition render_pages (st : render_state) : result render_state :=
  for_range (num_pages total_cards) render_page st.

End Render.

(** What a run leaves behind: the document and the console output. *)
Record run := { document : Canvas; console : list string }.

Definition create_pdf_from_folder (mm : Q) (w : World) (oracle : list nat)
    (image_folder output_filename : string) : result run :=
  entries ← os_listdir w image_folder;
  let image_paths := list_images image_folder entries in
  let total_cards := length image_paths in
  let out := ["正在并行加载图片..." ++ LF]%string in
  let loaded_images := preload_images w oracle image_paths in
  let c := Canvas_new output_filename in
  st ← render_pages mm w total_cards loaded_images
         {| canvas := c; card_index := 0; stdout := out |};
  c ← save w (canvas st);
  Ok {| document := c;
        console := stdout st ++
          [LF; ("生成 PDF 文件：" ++ output_filename ++ LF)%string] |}.

(** ** What a sheet is expected to show

    The closed forms below describe a page cell by cell; the theorems
    compare them with what the loops of the program draw. *)

Section Expected.

Variable mm : Q.
Variable w : World.
Variable loaded_images : list (string * option ImageReader).

Local Open Scope Q_scope.

(** The outline and label of a cell whose image cannot be shown. *)
Definition placeholder_ops (x y : Q) : list canvas_op :=
  [Rect x y (card_width mm) (card_height mm) true false;
   DrawString (x + 5) (y + card_height mm / 2) error_label].

(** What is drawn for an entry of [loaded_images] in the box whose
    lower-left corner is (x, y). *)
Definition entry_ops (entry : option (string * option ImageReader))
    (x y : Q) : list canvas_op :=
  match entry with
  | None => []
  | Some (_, None) => placeholder_ops x y
  | Some (_, Some img) =>
      if drawImage_raises w img then placeholder_ops x y
      else [DrawImage img x y (card_width mm) (card_height mm) true "c"]
  end.

(** The cell in row [row] and column [col] shows entry [k]. *)
Definition cell_ops (k row col : nat) : list canvas_op :=
  entry_ops (loaded_images !! k)
    (left_margin mm + gap mm + Qnat col * (card_width mm + gap mm))
    (bottom_margin mm + gap mm
     + Qint (3 - 1 - Z.of_nat row) * (card_height mm + gap mm)).

(** The nine cells of page [page], top row first, left to right. *)
Definition page_cells (page : nat) : list canvas_op :=
  flat_map (fun row =>
    flat_map (fun col => cell_ops (9 * page + 3 * row + col) row col)
      (seq 0 3)) (seq 0 3).

(** The guide square at the crossing of grid lines [v] and [h]. *)
Definition guide_square (v h : nat) : canvas_op :=
  Rect (left_margin mm + Qnat v * (card_width mm + gap mm))
       (bottom_margin mm + Qnat h * (card_height mm + gap mm))
       (gap mm) (gap mm) true false.

Definition page_guides : list canvas_op :=
  flat_map (fun v =>
    flat_map (fun h => [SetLineWidth (1 # 2); guide_square v h])
      (seq 0 4)) (seq 0 4).

Definition expected_page (page : nat) : list canvas_op :=
  page_cells page ++ page_guides.

End Expected.

(** Whether an operation outlines a square of side [gap]. *)
Definition is_guide (mm : Q) (op : canvas_op) : bool :=
  match op with
  | Rect _ _ width height _ _ =>
      Qeq_bool width (gap mm) && Qeq_bool height (gap mm)
  | _ => false
  end.

(** The open rectangle with lower-left corner (x, y). *)
Definition inside (x y width height : Q) (px py : Q) : Prop :=
  (x < px /\ px < x + width /\ y < py /\ py < y + height)%Q.

(** ** Image names, in the words of the specification *)

(** The extension of a file name: what follows its last dot, if there is
    a dot. *)
Fixpoint extension (f : string) : option string :=
  match f with
  | EmptyString => None
  | String c f' =>
      match extension f' with
      | Some e => Some e
      | None => if Ascii.eqb c "." then Some f' else None
      end
  end.

Definition image_extensions : list string :=
  ["jpg"; "jpeg"; "png"; "bmp"; "gif"]%string.

(** An entry counts as an image when its extension, compared without
    regard to case, is one of the five. *)
Definition is_image_name (f : string) : bool :=
  match extension f with
  | Some e => bool_decide (lower e ∈ image_extensions)
  | None => false
  end.

(** The images of a folder: the image names among its entries, sorted by
    name, each as a path below the folder. *)
Definition images_of_folder (image_folder : string) (entries : list string)
    : list string :=
  map (os_path_join image_folder)
    (sort (filter (fun f => is_image_name f = true) entries)).

(** What [os.path.join] puts in front of a relative name. *)
Definition folder_prefix (a : string) : string :=
  if String.eqb a EmptyString then EmptyString
  else if endswith a sep then a
  else (a ++ sep)%string.

(** ** A sample folder

    Three images and a text file: [a.jpg] loads, [b.PNG] cannot be decoded,
    [c.gif] loads but reportlab cannot embed it. *)

Definition sample_entries : list string :=
  ["b.PNG"; "a.jpg"; "notes.txt"; "c.gif"]%string.

Definition sample_pixels : PIL.pixels :=
  PIL.ModeRGBA [(10, 20, 30, 255); (200, 100, 0, 255)]%Z.

Definition sample_gif : PIL.pixels := PIL.ModeL [7]%Z.

Definition sample_world : World := {|
  os_listdir := fun d =>
    if String.eqb d "cards" then Ok sample_entries else Raise FileNotFoundError;
  Image_open := fun p =>
    if String.eqb p "cards/a.jpg"
    then Ok {| PIL.header_size := (2, 1); PIL.decode := Ok sample_pixels |}
    else if String.eqb p "cards/b.PNG"
    then Ok {| PIL.header_size := (1, 1); PIL.decode := Raise OSError |}
    else if String.eqb p "cards/c.gif"
    then Ok {| PIL.header_size := (1, 1); PIL.decode := Ok sample_gif |}
    else Raise FileNotFoundError;
  drawImage_raises := fun r =>
    bool_decide (PIL.size (reader_image r) = (1, 1));
  writable := fun p => String.eqb p "cards.pdf";
  open_error := fun _ => FileNotFoundError
|}.

(** reportlab's value of [mm]: 72 points per inch, 25.4 mm per inch. *)
Definition sample_mm : Q := 360 # 127.

Definition sample_loaded : list (string * option ImageReader) :=
  preload_images sample_world [2; 0; 1] (list_images "cards" sample_entries).

(** ** Well-formed and opaque images *)

Definition in_byte (z : Z) : bool := (0 <=? z)%Z && (z <=? 255)%Z.

Definition in_word (z : Z) : bool := (0 <=? z)%Z && (z <=? 65535)%Z.

Definition pixel_count (p : PIL.pixels) : nat :=
  match p with
  | PIL.ModeL d => length d
  | PIL.ModeRGB d => length d
  | PIL.ModeRGBA d => length d
  | PIL.ModeLA d => length d
  | PIL.ModeP d _ => length d
  | PIL.ModeI16 d => length d
  | PIL.ModeLKey d _ => length d
  | PIL.ModeRGBKey d _ => length d
  end.

Definition rgba_in_range (p : PIL.rgba) : bool :=
  let '(r, g, b, a) := p in
  in_byte r && in_byte g && in_byte b && in_byte a.

Definition in_palette (palette : list PIL.rgba) (i : Z) : bool :=
  (0 <=? i)%Z && (i <? Z.of_nat (length palette))%Z.

Definition bands_in_range (p : PIL.pixels) : bool :=
  match p with
  | PIL.ModeL d => forallb in_byte d
  | PIL.ModeRGB d =>
      forallb (fun '(r, g, b) => in_byte r && in_byte g && in_byte b) d
  | PIL.ModeRGBA d => forallb rgba_in_range d
  | PIL.ModeLA d => forallb (fun '(v, a) => in_byte v && in_byte a) d
  | PIL.ModeP d palette =>
      forallb (in_palette palette) d && forallb rgba_in_range palette
  | PIL.ModeI16 d => forallb in_word d
  | PIL.ModeLKey d _ => forallb in_byte d
  | PIL.ModeRGBKey d _ =>
      forallb (fun '(r, g, b) => in_byte r && in_byte g && in_byte b) d
  end.

(** One pixel per point of the raster, every band a byte (a 16-bit word
    in mode I;16), every index within the palette. *)
Definition well_formed (im : PIL.Image) : bool :=
  (pixel_count (PIL.data im) =? fst (PIL.size im) * snd (PIL.size im))%nat
  && bands_in_range (PIL.data im).









(** ** Console output, in closed form *)

Definition loading_line : string := ("正在并行加载图片..." ++ LF)%string.

(** The progress text written after image [i] of [total_cards]. *)
Definition progress_line (total_cards i : nat) : string :=
  (CR ++ ("生成进度: " ++ pretty i ++ "/" ++ pretty total_cards
          ++ " 张图片"))%string.

Definition blank_line : string := (CR ++ "生成空白网格页...")%string.

Definition done_line (output_filename : string) : string :=
  ("生成 PDF 文件：" ++ output_filename ++ LF)%string.

(** What the page loop writes after [pages_done] pages and [consumed]
    images. *)
Definition console_so_far (total_cards pages_done consumed : nat)
    : list string :=
  if (total_cards =? 0)%nat then repeat blank_line pages_done
  else map (progress_line total_cards) (seq 1 consumed).

(** After [p] finished pages, the console shows [out] and then what has
    been consumed. *)
Definition console_inv (total_cards : nat) (out : list string) (p : nat)
    (st : render_state) : Prop :=
  card_index st <= total_cards /\
  stdout st = out ++ console_so_far total_cards p (card_index st).

(** A folder without images. *)
Definition empty_world : World := {|
  os_listdir := fun _ => Ok ["README.md"; "notes.txt"]%string;
  Image_open := fun _ => Raise FileNotFoundError;
  drawImage_raises := fun _ => false;
  writable := fun _ => true;
  open_error := fun _ => PermissionError
|}.

(** A file with a half-transparent and a fully transparent pixel. *)
Definition sample_translucent : PIL.ImageFile :=
  {| PIL.header_size := (2, 1);
     PIL.decode := Ok (PIL.ModeRGBA [(10, 20, 30, 128); (1, 2, 3, 0)]%Z) |}.

(** ** Compositing over white, in closed form *)

(** The coefficients and the alpha of [composite_pixel] when the
    destination is opaque white and the source has alpha [a]. *)
Definition coef1_white (a : Z) : Z :=
  PIL.u32 (a * 255 * 255 * Z.shiftl 1 PIL.PRECISION_BITS
           / PIL.u32 (a * 255 + PIL.u32 (255 * (255 - a))))%Z.

Definition coef2_white (a : Z) : Z :=
  PIL.u32 (255 * Z.shiftl 1 PIL.PRECISION_BITS - coef1_white a)%Z.

Definition alpha_white (a : Z) : Z :=
  PIL.u8 (PIL.SHIFTFORDIV255
            (PIL.u32 (PIL.u32 (a * 255 + PIL.u32 (255 * (255 - a))) + 128)))%Z.

(** The blend of a band [s] of alpha [a] with white,
    (s a + 255 (255 - a)) / 255, rounded to the nearest integer. *)
Definition white_mix (s a : Z) : Z :=
  ((2 * (s * a + 255 * (255 - a)) + 255) / (2 * 255))%Z.

Definition bytes : list Z := map Z.of_nat (seq 0 256).

(** Whether the integer blend of band [s] with coefficients [c1], [c2]
    is [white_mix s a], between the band and white. *)
Definition band_ok (a c1 c2 s : Z) : bool :=
  let v := PIL.blend_band s 255 c1 c2 in
  (v =? white_mix s a)%Z && (s <=? v)%Z && (v <=? 255)%Z.

Definition alpha_ok (a : Z) : bool :=
  (a =? 0)%Z ||
  ((alpha_white a =? 255)%Z
   && forallb (band_ok a (coef1_white a) (coef2_white a)) bytes).

(** A folder whose one image has transparent pixels. *)
Definition translucent_world : World := {|
  os_listdir := fun _ => Ok ["t.png"]%string;
  Image_open := fun _ => Ok sample_translucent;
  drawImage_raises := fun _ => false;
  writable := fun _ => true;
  open_error := fun _ => PermissionError
|}.

(** Whether an operation shows a card: an image, or the label that
    stands for an image that could not be shown. *)
Definition shows_card (op : canvas_op) : bool :=
  match op with
  | DrawImage _ _ _ _ _ _ _ => true
  | DrawString _ _ _ => true
  | _ => false
  end.

(** [c'] is [c] with [ops] appended to the page in progress. *)
Definition extends (c : Canvas) (ops : list canvas_op) (c' : Canvas) : Prop :=
  c' = {| filename := filename c; pages := pages c;
          code := code c ++ ops; saved := saved c |}.

(** ** Proofs *)

(** *** The loops *)

Lemma for_each_app {A S : Type} (l1 l2 : list A) (body : A -> S -> result S)
    (st st1 : S) :
  for_each l1 body st = Ok st1 ->
  for_each (l1 ++ l2) body st = for_each l2 body st1.
Proof.
  revert st. induction l1 as [|x l1 IH]; intros st H; cbn in *.
  - congruence.
  - destruct (body x st) as [st'|e]; [auto | discriminate].
Qed.

Lemma bind_Ok {A B : Type} (f : A -> result B) (a : A) : (Ok a ≫= f) = f a.
Proof. reflexivity. Qed.

Lemma extends_nil c : extends c [] c.
Proof. unfold extends. rewrite app_nil_r. by destruct c. Qed.

Lemma extends_trans c1 c2 c3 ops1 ops2 :
  extends c1 ops1 c2 -> extends c2 ops2 c3 -> extends c1 (ops1 ++ ops2) c3.
Proof.
  unfold extends. intros -> ->. cbn. by rewrite app_assoc.
Qed.

Lemma extends_emit c op : extends c [op] (emit c op).
Proof. reflexivity. Qed.

Lemma num_pages_covers n : n <= 9 * num_pages n.
Proof.
  unfold num_pages, cards_per_page.
  destruct (Nat.ltb_spec 0 n); [|lia].
  pose proof (Nat.div_mod_eq (n + 9 - 1) 9).
  pose proof (Nat.mod_upper_bound (n + 9 - 1) 9).
  lia.
Qed.

Section RenderProofs.

Variable mm : Q.
Variable w : World.
Variable total_cards : nat.
Variable loaded_images : list (string * option ImageReader).
Hypothesis loaded_length : length loaded_images = total_cards.

Lemma draw_placeholder_extends c x y :
  extends c (placeholder_ops mm x y) (draw_placeholder mm c x y).
Proof.
  unfold draw_placeholder, placeholder_ops, rect, drawString.
  change [?a; ?b] with ([a] ++ [b]).
  eapply extends_trans; apply extends_emit.
Qed.

(** One cell: entry [k] is drawn in the cell's box and the counter moves
    on, or nothing happens when the entries are used up. *)
Lemma draw_cell_spec row col k st :
  card_index st = Nat.min k total_cards ->
  exists st',
    draw_cell mm w total_cards loaded_images row col st = Ok st' /\
    extends (canvas st) (cell_ops mm w loaded_images k row col) (canvas st') /\
    card_index st' = Nat.min (S k) total_cards.
Proof.
  intros Hi. unfold draw_cell, cell_ops. rewrite Hi.
  destruct (Nat.ltb_spec (Nat.min k total_cards) total_cards) as [Hlt|Hge].
  - assert (Hk : Nat.min k total_cards = k) by lia. rewrite Hk.
    destruct (lookup_lt_is_Some_2 loaded_images k) as [[p o] Hl]; [lia|].
    rewrite Hl. eexists. split; [reflexivity|]. cbn [canvas card_index].
    split; [|lia].
    unfold entry_ops, drawImage, cell_x, cell_y, rows.
    destruct o as [img|].
    + destruct (drawImage_raises w img).
      * apply draw_placeholder_extends.
      * apply extends_emit.
    + apply draw_placeholder_extends.
  - exists st. split; [reflexivity|].
    rewrite (lookup_ge_None_2 loaded_images k) by lia.
    split; [apply extends_nil | lia].
Qed.

Ltac cell_step p :=
  match goal with
  | H : card_index ?st = _
    |- context [draw_cell _ _ _ _ ?r ?c ?st] =>
      let st' := fresh "st" in
      let E := fresh "E" in
      let X := fresh "X" in
      let I := fresh "I" in
      destruct (draw_cell_spec r c (9 * p + 3 * r + c) st)
        as (st' & E & X & I);
      [ rewrite H; f_equal; lia
      | rewrite E; clear E H; cbn [for_each] ]
  end.

(** The nine cells of a page. *)
Lemma page_cells_spec p st :
  card_index st = Nat.min (9 * p) total_cards ->
  exists st',
    for_range rows (fun row =>
      for_range columns (fun col =>
        draw_cell mm w total_cards loaded_images row col)) st = Ok st' /\
    extends (canvas st) (page_cells mm w loaded_images p) (canvas st') /\
    card_index st' = Nat.min (9 * S p) total_cards.
Proof.
  intros H. unfold for_range, rows, columns. cbn [seq for_each].
  do 9 cell_step p.
  eexists. split; [reflexivity|]. split.
  - unfold page_cells. cbn [flat_map seq].
    repeat match goal with
           | X1 : extends ?a _ ?b, X2 : extends ?b _ ?c |- _ =>
               pose proof (extends_trans _ _ _ _ _ X1 X2); clear X1 X2
           end.
    match goal with X : extends _ ?ops _ |- extends _ ?ops' _ =>
      replace ops' with ops; [exact X|] end.
    rewrite !app_nil_r, <- !app_assoc. reflexivity.
  - match goal with I : card_index _ = _ |- _ => rewrite I end.
    f_equal. lia.
Qed.

Lemma draw_guide_spec v h st :
  exists st',
    draw_guide mm v h st = Ok st' /\
    extends (canvas st) [SetLineWidth (1 # 2); guide_square mm v h]
      (canvas st') /\
    card_index st' = card_index st.
Proof.
  eexists. split; [reflexivity|]. cbn [canvas card_index]. split; [|done].
  unfold setLineWidth, rect, guide_square, x_square, y_square.
  change [?a; ?b] with ([a] ++ [b]).
  eapply extends_trans; apply extends_emit.
Qed.

Ltac guide_step :=
  match goal with
  | |- context [draw_guide _ ?v ?h ?st] =>
      let st' := fresh "st" in
      let E := fresh "E" in
      let X := fresh "X" in
      let I := fresh "I" in
      destruct (draw_guide_spec v h st) as (st' & E & X & I);
      rewrite E; clear E; cbn [for_each]
  end.

(** The sixteen guide squares of a page. *)
Lemma page_guides_spec st :
  exists st',
    for_range (columns + 1) (fun v =>
      for_range (rows + 1) (fun h => draw_guide mm v h)) st = Ok st' /\
    extends (canvas st) (page_guides mm) (canvas st') /\
    card_index st' = card_index st.
Proof.
  unfold for_range, rows, columns. cbn [seq for_each Nat.add].
  do 16 guide_step.
  eexists. split; [reflexivity|]. split.
  - unfold page_guides. cbn [flat_map seq].
    repeat match goal with
           | X1 : extends ?a _ ?b, X2 : extends ?b _ ?c |- _ =>
               pose proof (extends_trans _ _ _ _ _ X1 X2); clear X1 X2
           end.
    match goal with X : extends _ ?ops _ |- extends _ ?ops' _ =>
      replace ops' with ops; [exact X|] end.
    rewrite !app_nil_r, <- !app_assoc. reflexivity.
  - congruence.
Qed.

Lemma render_page_unfold page st :
  render_page mm w total_cards loaded_images page st =
  (for_range rows (fun row =>
     for_range columns (fun col =>
       draw_cell mm w total_cards loaded_images row col)) st) ≫= (fun st =>
  (for_range (columns + 1) (fun v =>
     for_range (rows + 1) (fun h => draw_guide mm v h))
     (if (total_cards =? 0)%nat
      then {| canvas := canvas st; card_index := card_index st;
              stdout := stdout st ++ [(CR ++ "生成空白网格页...")%string] |}
      else st)) ≫= (fun st =>
  Ok {| canvas := showPage (canvas st); card_index := card_index st;
        stdout := stdout st |})).
Proof. reflexivity. Qed.

(** One page: the cells, then the guides, then the page is shown. *)
Lemma render_page_spec p st :
  card_index st = Nat.min (9 * p) total_cards ->
  code (canvas st) = [] ->
  exists st',
    render_page mm w total_cards loaded_images p st = Ok st' /\
    pages (canvas st') =
      pages (canvas st) ++ [expected_page mm w loaded_images p] /\
    code (canvas st') = [] /\
    filename (canvas st') = filename (canvas st) /\
    saved (canvas st') = saved (canvas st) /\
    card_index st' = Nat.min (9 * S p) total_cards.
Proof.
  intros Hi Hc. rewrite render_page_unfold.
  destruct (page_cells_spec p st Hi) as (st1 & E1 & X1 & I1).
  rewrite E1, bind_Ok.
  set (st2 := if (total_cards =? 0)%nat then _ else st1).
  assert (Hcv : canvas st2 = canvas st1) by (subst st2; by case_match).
  assert (Hci : card_index st2 = card_index st1) by (subst st2; by case_match).
  destruct (page_guides_spec st2) as (st3 & E3 & X3 & I3).
  rewrite E3, bind_Ok.
  eexists. split; [reflexivity|]. cbn [canvas card_index].
  rewrite Hcv in X3. pose proof (extends_trans _ _ _ _ _ X1 X3) as X.
  unfold extends in X. rewrite X, Hc.
  cbn [showPage pages code filename saved app].
  split; [reflexivity|]. do 3 (split; [reflexivity|]).
  rewrite I3, Hci, I1. reflexivity.
Qed.

Lemma render_pages_from n : forall s st,
  card_index st = Nat.min (9 * s) total_cards ->
  code (canvas st) = [] ->
  exists st',
    for_each (seq s n) (render_page mm w total_cards loaded_images) st
      = Ok st' /\
    pages (canvas st') =
      pages (canvas st) ++ map (expected_page mm w loaded_images) (seq s n) /\
    code (canvas st') = [] /\
    filename (canvas st') = filename (canvas st) /\
    saved (canvas st') = saved (canvas st) /\
    card_index st' = Nat.min (9 * (s + n)) total_cards.
Proof.
  induction n as [|n IH]; intros s st Hi Hc.
  - exists st. cbn [seq for_each map]. rewrite app_nil_r, Nat.add_0_r.
    by repeat split.
  - cbn [seq for_each map].
    destruct (render_page_spec s st Hi Hc) as (st1 & -> & P1 & C1 & F1 & S1 & I1).
    destruct (IH (S s) st1 I1 C1) as (st2 & E2 & P2 & C2 & F2 & S2 & I2).
    exists st2. rewrite E2, P2, P1, <- app_assoc. cbn [app].
    split; [reflexivity|]. split; [reflexivity|].
    do 3 (split; [congruence|]).
    rewrite I2. f_equal. lia.
Qed.

(** The whole document, from an empty canvas: page [p] is
    [expected_page p] and every entry has been consumed. *)
Lemma render_pages_spec st :
  card_index st = 0 ->
  code (canvas st) = [] ->
  exists st',
    render_pages mm w total_cards loaded_images st = Ok st' /\
    pages (canvas st') =
      pages (canvas st) ++
      map (expected_page mm w loaded_images) (seq 0 (num_pages total_cards)) /\
    code (canvas st') = [] /\
    filename (canvas st') = filename (canvas st) /\
    saved (canvas st') = saved (canvas st) /\
    card_index st' = total_cards.
Proof.
  intros Hi Hc. unfold render_pages, for_range.
  destruct (render_pages_from (num_pages total_cards) 0 st)
    as (st' & E & P & C & F & S & I); [rewrite Hi; lia | done |].
  exists st'. do 5 (split; [assumption|]).
  rewrite I. pose proof (num_pages_covers total_cards). lia.
Qed.

End RenderProofs.

(** *** The thread pool *)

Section Pool.

Context {A B : Type}.
Variable fn : A -> B.
Variable items : list A.

Lemma elem_of_delete_other (l : list nat) (k i j : nat) :
  l !! k = Some j -> i ∈ l -> i <> j -> i ∈ delete k l.
Proof.
  intros Hk Hi Hne. rewrite delete_take_drop.
  rewrite <- (take_drop_middle l k j Hk) in Hi.
  rewrite elem_of_app, elem_of_cons in Hi. rewrite elem_of_app.
  destruct Hi as [?|[?|?]]; [by left | done | by right].
Qed.

Lemma pick_in_range (o : list nat) (pending : list nat) fuel :
  length pending = S fuel ->
  exists j, pending !! (hd 0 o `mod` length pending) = Some j.
Proof.
  intros Hlen. apply lookup_lt_is_Some_2.
  apply Nat.mod_upper_bound. lia.
Qed.

(** Every submitted future ends up holding the result for its own
    item, whatever the oracle. *)
Lemma pool_run_lookup fuel : forall pending oracle (done : gmap nat B) i a,
  items !! i = Some a ->
  length pending = fuel ->
  i ∈ pending \/ done !! i = Some (fn a) ->
  pool_run fn items fuel pending oracle done !! i = Some (fn a).
Proof.
  induction fuel as [|fuel IH]; intros pending oracle done i a Hi Hlen Hor.
  - destruct pending; [|discriminate]. cbn.
    destruct Hor as [Hin|]; [|done]. by apply elem_of_nil in Hin.
  - cbn [pool_run].
    destruct (pick_in_range oracle pending fuel Hlen) as [j Hj].
    rewrite Hj. apply IH; [done | |].
    + rewrite length_delete by eauto. lia.
    + destruct (decide (i = j)) as [->|Hne].
      * right. rewrite Hi. apply lookup_insert_eq.
      * destruct Hor as [Hin|Hdone].
        -- left. by eapply elem_of_delete_other.
        -- right. destruct (items !! j); [|done].
           by rewrite lookup_insert_ne.
Qed.

Lemma omap_seq_lookup (f : nat -> option B) : forall (l : list A) s,
  (forall i a, l !! i = Some a -> f (s + i) = Some (fn a)) ->
  omap f (seq s (length l)) = map fn l.
Proof.
  induction l as [|a l IH]; intros s H; [done|].
  cbn [length seq map]. change (omap f (?x :: ?l)) with
    (match f x with Some y => y :: omap f l | None => omap f l end).
  pose proof (H 0 a eq_refl) as H0. rewrite Nat.add_0_r in H0. rewrite H0.
  f_equal. apply IH. intros i b Hb.
  replace (S s + i) with (s + S i) by lia. by apply H.
Qed.

(** The results come back in submission order. *)
Lemma executor_map_spec oracle :
  executor_map fn items oracle = map fn items.
Proof.
  unfold executor_map. apply omap_seq_lookup. intros i a Hi. cbn.
  apply pool_run_lookup; [done | by rewrite length_seq |].
  left. apply elem_of_seq. apply lookup_lt_Some in Hi. lia.
Qed.

(** Every order of completion is the order of some oracle. *)
Lemma every_completion_order sigma : forall pending,
  Permutation sigma pending ->
  exists oracle,
    completion_order (length pending) pending oracle = sigma.
Proof.
  induction sigma as [|j sigma IH]; intros pending Hp.
  - apply Permutation_nil in Hp as ->. by exists [].
  - assert (Hin : j ∈ pending).
    { apply list_elem_of_In. eapply Permutation_in; [exact Hp|]. by left. }
    apply list_elem_of_lookup in Hin as [k Hk].
    pose proof (lookup_lt_Some _ _ _ Hk) as Hlt.
    destruct (IH (delete k pending)) as [o Ho].
    { apply (Permutation_cons_inv (a := j)). rewrite Hp.
      rewrite <- (take_drop_middle pending k j Hk) at 1.
      rewrite delete_take_drop. symmetry. apply Permutation_middle. }
    exists (k :: o).
    destruct pending as [|x pending']; [cbn in Hlt; lia|].
    cbn [length completion_order hd tl].
    change (S (length pending')) with (length (x :: pending')).
    rewrite Nat.mod_small by done. rewrite Hk. f_equal.
    rewrite length_delete in Ho by eauto.
    cbn [length] in Ho. by rewrite Nat.sub_1_r in Ho.
Qed.

End Pool.

(** *** The whole run *)

Lemma preload_images_spec w oracle image_paths :
  preload_images w oracle image_paths =
  zip image_paths (map (load_image w) image_paths).
Proof. unfold preload_images. by rewrite executor_map_spec. Qed.

Lemma preload_images_length w oracle image_paths :
  length (preload_images w oracle image_paths) = length image_paths.
Proof.
  rewrite preload_images_spec, length_zip_with, length_map. lia.
Qed.

Lemma preload_images_lookup w oracle image_paths k :
  preload_images w oracle image_paths !! k =
  (fun p => (p, load_image w p)) <$> image_paths !! k.
Proof.
  rewrite preload_images_spec. revert k.
  induction image_paths as [|p l IH]; intros [|k]; cbn; done.
Qed.

Lemma create_pdf_unfold mm w oracle image_folder output_filename :
  create_pdf_from_folder mm w oracle image_folder output_filename =
  os_listdir w image_folder ≫= (fun entries =>
  render_pages mm w (length (list_images image_folder entries))
    (preload_images w oracle (list_images image_folder entries))
    {| canvas := Canvas_new output_filename; card_index := 0;
       stdout := ["正在并行加载图片..." ++ LF]%string |} ≫= (fun st =>
  save w (canvas st) ≫= (fun c =>
  Ok {| document := c;
        console := stdout st ++
          [LF; ("生成 PDF 文件：" ++ output_filename ++ LF)%string] |}))).
Proof. reflexivity. Qed.

Lemma save_spec w c :
  code c = [] ->
  writable w (filename c) = true ->
  save w c = Ok {| filename := filename c; pages := pages c;
                   code := code c; saved := true |}.
Proof.
  destruct c as [f ps cd sv]. cbn [code filename pages].
  intros -> Hw. unfold save. cbn. by rewrite Hw.
Qed.

(** A run on a readable folder with a writable output path completes, and
    its document consists of the expected pages. *)
Lemma create_pdf_spec mm w oracle image_folder output_filename entries :
  os_listdir w image_folder = Ok entries ->
  writable w output_filename = true ->
  exists r,
    create_pdf_from_folder mm w oracle image_folder output_filename = Ok r /\
    pages (document r) =
      map (expected_page mm w
             (preload_images w oracle (list_images image_folder entries)))
        (seq 0 (num_pages (length (list_images image_folder entries)))) /\
    code (document r) = [] /\
    filename (document r) = output_filename /\
    saved (document r) = true.
Proof.
  intros Hdir Hout. rewrite create_pdf_unfold, Hdir, bind_Ok.
  set (paths := list_images image_folder entries).
  destruct (render_pages_spec mm w (length paths)
              (preload_images w oracle paths)
              (preload_images_length w oracle paths)
              {| canvas := Canvas_new output_filename; card_index := 0;
                 stdout := ["正在并行加载图片..." ++ LF]%string |}
              eq_refl eq_refl)
    as (st & E & P & C & F & S & I).
  rewrite E, bind_Ok. cbn [canvas Canvas_new pages filename saved app] in P, F.
  rewrite save_spec, bind_Ok by (by rewrite ?F).
  eexists. split; [reflexivity|]. cbn [document pages code filename saved].
  by rewrite P, C, F.
Qed.

(** *** Cells of a page *)

Lemma split_here {T} (l rest : list T) :
  exists before after, l ++ rest = before ++ l ++ after.
Proof. by exists [], rest. Qed.

Lemma split_later {T} (x l rest : list T) :
  (exists before after, rest = before ++ l ++ after) ->
  exists before after, x ++ rest = before ++ l ++ after.
Proof.
  intros (b & a & ->). exists (x ++ b), a. by rewrite app_assoc.
Qed.

(** Every cell of a page occurs among the operations of the page. *)
Lemma page_cells_split mm w loaded page row col :
  row < 3 -> col < 3 ->
  exists before after,
    expected_page mm w loaded page =
    before ++ cell_ops mm w loaded (9 * page + 3 * row + col) row col ++ after.
Proof.
  intros Hr Hc. unfold expected_page, page_cells. cbn [flat_map seq].
  rewrite !app_nil_r, <- !app_assoc.
  destruct row as [|[|[|?]]]; [| | |lia];
    (destruct col as [|[|[|?]]]; [| | |lia]);
    repeat first [apply split_here | apply split_later].
Qed.

(** Entry [k] sits on page [k / 9], in row [k mod 9 / 3] and column
    [k mod 3]. *)
Lemma cell_position k :
  k = 9 * (k / 9) + 3 * (k `mod` 9 / 3) + k `mod` 3 /\
  k `mod` 9 / 3 < 3 /\ k `mod` 3 < 3.
Proof.
  pose proof (Nat.div_mod_eq k 9).
  pose proof (Nat.mod_upper_bound k 9).
  pose proof (Nat.div_mod_eq (k `mod` 9) 3).
  pose proof (Nat.mod_upper_bound (k `mod` 9) 3).
  pose proof (Nat.mod_upper_bound k 3).
  assert ((k `mod` 9) `mod` 3 = k `mod` 3).
  { rewrite (Nat.div_mod_eq k 9) at 2.
    replace (9 * (k / 9) + k `mod` 9) with (k `mod` 9 + (3 * (k / 9)) * 3) by lia.
    by rewrite Nat.Div0.mod_add. }
  lia.
Qed.

(** Page [page] of a rendered document. *)
Lemma render_pages_lookup mm w total_cards loaded_images output_filename out :
  length loaded_images = total_cards ->
  exists st',
    render_pages mm w total_cards loaded_images
      {| canvas := Canvas_new output_filename; card_index := 0;
         stdout := out |} = Ok st' /\
    length (pages (canvas st')) = num_pages total_cards /\
    card_index st' = total_cards /\
    forall page, page < num_pages total_cards ->
      pages (canvas st') !! page =
      Some (expected_page mm w loaded_images page).
Proof.
  intros Hlen.
  destruct (render_pages_spec mm w total_cards loaded_images Hlen
              {| canvas := Canvas_new output_filename; card_index := 0;
                 stdout := out |} eq_refl eq_refl)
    as (st & E & P & C & F & S & I).
  exists st. cbn [canvas Canvas_new pages app] in P.
  split; [exact E|]. rewrite P. split; [|split; [exact I|]].
  - by rewrite length_map, length_seq.
  - intros page Hp. by rewrite list_lookup_fmap, lookup_seq_lt.
Qed.

(** Page [page] of the document of a run. *)
Lemma create_pdf_lookup mm w oracle image_folder output_filename entries :
  os_listdir w image_folder = Ok entries ->
  writable w output_filename = true ->
  exists r,
    create_pdf_from_folder mm w oracle image_folder output_filename = Ok r /\
    length (pages (document r)) =
      num_pages (length (list_images image_folder entries)) /\
    forall page,
      page < num_pages (length (list_images image_folder entries)) ->
      pages (document r) !! page =
      Some (expected_page mm w
              (preload_images w oracle (list_images image_folder entries))
              page).
Proof.
  intros Hdir Hout.
  destruct (create_pdf_spec mm w oracle image_folder output_filename entries
              Hdir Hout) as (r & E & P & _).
  exists r. split; [exact E|]. rewrite P. split.
  - by rewrite length_map, length_seq.
  - intros page Hp. by rewrite list_lookup_fmap, lookup_seq_lt.
Qed.

(** *** Geometry *)

Section GeometryFacts.

Variable mm : Q.

Local Open Scope Q_scope.

Lemma grid_width_mm : grid_width mm == 185 * mm.
Proof.
  unfold grid_width, card_width, gap, columns.
  change (Qnat 3) with 3. change (Qnat (3 + 1)) with 4. ring.
Qed.

Lemma grid_height_mm : grid_height mm == 266 * mm.
Proof.
  unfold grid_height, card_height, gap, rows.
  change (Qnat 3) with 3. change (Qnat (3 + 1)) with 4. ring.
Qed.

Lemma left_margin_mm : left_margin mm == (25 # 2) * mm.
Proof.
  unfold left_margin, page_width, A4. cbn [fst]. rewrite grid_width_mm.
  field.
Qed.

Lemma bottom_margin_mm : bottom_margin mm == (31 # 2) * mm.
Proof.
  unfold bottom_margin, page_height, A4. cbn [snd]. rewrite grid_height_mm.
  field.
Qed.

Lemma Qnat_S n : Qnat (S n) == Qnat n + 1.
Proof.
  unfold Qnat. rewrite Nat2Z.inj_succ, <- Z.add_1_r, inject_Z_plus.
  reflexivity.
Qed.

Lemma Qnat_lt n m : (n < m)%nat -> Qnat n < Qnat m.
Proof. intros H. unfold Qnat. rewrite <- Zlt_Qlt. lia. Qed.

Lemma Qnat_le n m : (n <= m)%nat -> Qnat n <= Qnat m.
Proof. intros H. unfold Qnat. rewrite <- Zle_Qle. lia. Qed.

Lemma cell_x_mm col : cell_x mm col == ((29 # 2) + 61 * Qnat col) * mm.
Proof.
  unfold cell_x. rewrite left_margin_mm. unfold gap, card_width. ring.
Qed.

Lemma cell_y_mm row :
  cell_y mm row == ((35 # 2) + 88 * (2 - Qnat row)) * mm.
Proof.
  unfold cell_y. rewrite bottom_margin_mm. unfold gap, card_height, rows.
  unfold Qint, Qnat, Z.sub. rewrite !inject_Z_plus, !inject_Z_opp.
  change (inject_Z (Z.of_nat 3)) with 3. change (inject_Z 1) with 1. ring.
Qed.

Hypothesis mm_pos : 0 < mm.

Lemma cell_x_increasing col col' :
  (col < col')%nat -> cell_x mm col < cell_x mm col'.
Proof.
  intros H. apply Qnat_lt in H. rewrite !cell_x_mm. nra.
Qed.

Lemma cell_y_decreasing row row' :
  (row < row')%nat -> cell_y mm row' < cell_y mm row.
Proof.
  intros H. apply Qnat_lt in H. rewrite !cell_y_mm. nra.
Qed.

End GeometryFacts.

Lemma entry_cell_on_page mm w loaded k :
  exists before after,
    expected_page mm w loaded (k / 9) =
    before ++ cell_ops mm w loaded k (k `mod` 9 / 3) (k `mod` 3) ++ after.
Proof.
  destruct (cell_position k) as (E & Hr & Hc).
  destruct (page_cells_split mm w loaded (k / 9) _ _ Hr Hc) as (b & a & H).
  exists b, a. rewrite H. by rewrite <- E.
Qed.

Lemma page_of_entry_lt k total_cards :
  k < total_cards -> k / 9 < num_pages total_cards.
Proof.
  intros H. apply Nat.Div0.div_lt_upper_bound.
  pose proof (num_pages_covers total_cards). lia.
Qed.

(** The number of pages is the ceiling of [n / 9], and at least one. *)
Lemma num_pages_ceiling n k :
  n <= 9 * k -> 9 * k < n + 9 -> num_pages n = Nat.max 1 k.
Proof.
  intros H1 H2. unfold num_pages, cards_per_page.
  destruct (Nat.ltb_spec 0 n); [|lia].
  pose proof (Nat.div_mod_eq (n + 9 - 1) 9).
  pose proof (Nat.mod_upper_bound (n + 9 - 1) 9).
  lia.
Qed.

(** ** The claims *)

(** C7: with 3 columns and rows, 59 x 86 mm cards and 2 mm gaps the grid is
    185 mm wide and 266 mm high, in millimetres before the conversion to
    points, and the margins centre it on the A4 page (210 x 297 mm): the
    free space is split evenly, 12.5 mm left and right, 15.5 mm below and
    above. *)
Theorem grid_size_and_centering (mm : Q) :
  (grid_width mm == (3 * 59 + 4 * 2) * mm /\
   grid_width mm == 185 * mm /\
   grid_height mm == (3 * 86 + 4 * 2) * mm /\
   grid_height mm == 266 * mm /\
   page_width mm == 210 * mm /\
   page_height mm == 297 * mm /\
   left_margin mm + grid_width mm + left_margin mm == page_width mm /\
   bottom_margin mm + grid_height mm + bottom_margin mm == page_height mm /\
   left_margin mm == (25 # 2) * mm /\
   bottom_margin mm == (31 # 2) * mm)%Q.
Proof.
  pose proof (grid_width_mm mm) as W. pose proof (grid_height_mm mm) as H.
  pose proof (left_margin_mm mm) as L. pose proof (bottom_margin_mm mm) as B.
  assert (PW : (page_width mm == 210 * mm)%Q) by reflexivity.
  assert (PH : (page_height mm == 297 * mm)%Q) by reflexivity.
  split; [rewrite W; ring|]. split; [exact W|].
  split; [rewrite H; ring|]. split; [exact H|].
  split; [exact PW|]. split; [exact PH|].
  split; [rewrite L, W, PW; ring|].
  split; [rewrite B, H, PH; ring|].
  split; [exact L | exact B].
Qed.

(** C1: on every page, the cell in row [row] and column [col] (both in
    0..2) is drawn in the box whose lower-left corner is
    cell_x = leftMargin + gap + col * (cardWidth + gap) and
    cell_y = bottomMargin + gap + (rows - 1 - row) * (cardHeight + gap);
    lower rows have smaller ordinates and columns to the right larger
    abscissas, so row 0 is the top row and column 0 the left column. *)
Theorem cell_origin_formula (mm : Q) (w : World) (total_cards : nat)
    (loaded_images : list (string * option ImageReader))
    (output_filename : string) (out : list string) :
  (0 < mm)%Q ->
  length loaded_images = total_cards ->
  exists st',
    render_pages mm w total_cards loaded_images
      {| canvas := Canvas_new output_filename; card_index := 0;
         stdout := out |} = Ok st' /\
    (forall page row col,
       page < num_pages total_cards -> row < rows -> col < columns ->
       exists before after,
         pages (canvas st') !! page =
         Some (before ++
               entry_ops mm w (loaded_images !! (9 * page + 3 * row + col))
                 (left_margin mm + gap mm
                  + Qnat col * (card_width mm + gap mm))%Q
                 (bottom_margin mm + gap mm
                  + Qint (Z.of_nat rows - 1 - Z.of_nat row)
                    * (card_height mm + gap mm))%Q
               ++ after)) /\
    (forall row col st,
       cell_x mm col =
         (left_margin mm + gap mm + Qnat col * (card_width mm + gap mm))%Q /\
       cell_y mm row =
         (bottom_margin mm + gap mm
          + Qint (Z.of_nat rows - 1 - Z.of_nat row)
            * (card_height mm + gap mm))%Q /\
       exists st1,
         draw_cell mm w total_cards loaded_images row col st = Ok st1 /\
         (card_index st <= total_cards ->
          extends (canvas st)
            (entry_ops mm w (loaded_images !! card_index st)
               (cell_x mm col) (cell_y mm row))
            (canvas st1))) /\
    (forall row row', row < row' -> (cell_y mm row' < cell_y mm row)%Q) /\
    (forall col col', col < col' -> (cell_x mm col < cell_x mm col')%Q).
Proof.
  intros Hmm Hlen.
  destruct (render_pages_lookup mm w total_cards loaded_images
              output_filename out Hlen) as (st' & E & _ & _ & P).
  exists st'. split; [exact E|]. split; [|split; [|split]].
  - intros page row col Hp Hr Hc. rewrite (P page Hp).
    destruct (page_cells_split mm w loaded_images page row col Hr Hc)
      as (b & a & H).
    exists b, a. f_equal. exact H.
  - intros row col st. split; [reflexivity|]. split; [reflexivity|].
    destruct (Nat.le_gt_cases (card_index st) total_cards) as [Hle|Hgt].
    + destruct (draw_cell_spec mm w total_cards loaded_images Hlen
                  row col (card_index st) st) as (st1 & E1 & X1 & _); [lia|].
      exists st1. split; [exact E1|]. intros _. exact X1.
    + exists st. split; [|lia]. unfold draw_cell.
      destruct (Nat.ltb_spec (card_index st) total_cards); [lia|reflexivity].
  - intros row row'. apply cell_y_decreasing, Hmm.
  - intros col col'. apply cell_x_increasing, Hmm.
Qed.

Lemma cell_origin_formula_witness :
  (0 < sample_mm)%Q /\
  length sample_loaded = 3 /\
  exists st',
    render_pages sample_mm sample_world 3 sample_loaded
      {| canvas := Canvas_new "cards.pdf"; card_index := 0;
         stdout := [] |} = Ok st' /\
    (forall page row col,
       page < num_pages 3 -> row < rows -> col < columns ->
       exists before after,
         pages (canvas st') !! page =
         Some (before ++
               entry_ops sample_mm sample_world
                 (sample_loaded !! (9 * page + 3 * row + col))
                 (left_margin sample_mm + gap sample_mm
                  + Qnat col * (card_width sample_mm + gap sample_mm))%Q
                 (bottom_margin sample_mm + gap sample_mm
                  + Qint (Z.of_nat rows - 1 - Z.of_nat row)
                    * (card_height sample_mm + gap sample_mm))%Q
               ++ after)) /\
    (forall row col st,
       cell_x sample_mm col =
         (left_margin sample_mm + gap sample_mm
          + Qnat col * (card_width sample_mm + gap sample_mm))%Q /\
       cell_y sample_mm row =
         (bottom_margin sample_mm + gap sample_mm
          + Qint (Z.of_nat rows - 1 - Z.of_nat row)
            * (card_height sample_mm + gap sample_mm))%Q /\
       exists st1,
         draw_cell sample_mm sample_world 3 sample_loaded row col st = Ok st1 /\
         (card_index st <= 3 ->
          extends (canvas st)
            (entry_ops sample_mm sample_world (sample_loaded !! card_index st)
               (cell_x sample_mm col) (cell_y sample_mm row))
            (canvas st1))) /\
    (forall row row', row < row' ->
       (cell_y sample_mm row' < cell_y sample_mm row)%Q) /\
    (forall col col', col < col' ->
       (cell_x sample_mm col < cell_x sample_mm col')%Q).
Proof.
  split; [reflexivity|]. split; [reflexivity|].
  apply (cell_origin_formula sample_mm sample_world 3 sample_loaded
           "cards.pdf" []); reflexivity.
Defined.

(** C9: the entries of [loaded_images] are consumed once each and in
    order.  Cell number k of the document, counting page by page and row
    by row, shows entry k; cells from [total_cards] on stay blank; a
    filled cell advances the counter by one, a blank one leaves the state
    alone, and the counter ends at [total_cards]. *)
Theorem images_consumed_in_order (mm : Q) (w : World) (total_cards : nat)
    (loaded_images : list (string * option ImageReader))
    (output_filename : string) (out : list string) :
  length loaded_images = total_cards ->
  exists st',
    render_pages mm w total_cards loaded_images
      {| canvas := Canvas_new output_filename; card_index := 0;
         stdout := out |} = Ok st' /\
    pages (canvas st') =
      map (fun page =>
             flat_map (fun row =>
               flat_map (fun col =>
                 entry_ops mm w (loaded_images !! (9 * page + 3 * row + col))
                   (cell_x mm col) (cell_y mm row))
                 (seq 0 3)) (seq 0 3)
             ++ page_guides mm)
        (seq 0 (num_pages total_cards)) /\
    card_index st' = total_cards /\
    (forall k, k < total_cards -> is_Some (loaded_images !! k)) /\
    (forall k x y, total_cards <= k ->
       entry_ops mm w (loaded_images !! k) x y = []) /\
    (forall row col st, card_index st < total_cards ->
       exists st1,
         draw_cell mm w total_cards loaded_images row col st = Ok st1 /\
         card_index st1 = S (card_index st) /\
         extends (canvas st)
           (entry_ops mm w (loaded_images !! card_index st)
              (cell_x mm col) (cell_y mm row))
           (canvas st1)) /\
    (forall row col st, total_cards <= card_index st ->
       draw_cell mm w total_cards loaded_images row col st = Ok st).
Proof.
  intros Hlen.
  destruct (render_pages_spec mm w total_cards loaded_images Hlen
              {| canvas := Canvas_new output_filename; card_index := 0;
                 stdout := out |} eq_refl eq_refl)
    as (st' & E & P & _ & _ & _ & I).
  exists st'. split; [exact E|]. split; [exact P|]. split; [exact I|].
  split; [|split; [|split]].
  - intros k Hk. apply lookup_lt_is_Some_2. lia.
  - intros k x y Hk. by rewrite lookup_ge_None_2 by lia.
  - intros row col st Hlt.
    destruct (draw_cell_spec mm w total_cards loaded_images Hlen
                row col (card_index st) st) as (st1 & E1 & X1 & I1); [lia|].
    exists st1. split; [exact E1|]. split; [lia | exact X1].
  - intros row col st Hge. unfold draw_cell.
    destruct (Nat.ltb_spec (card_index st) total_cards); [lia|reflexivity].
Qed.

Lemma images_consumed_in_order_witness :
  length sample_loaded = 3 /\
  exists st',
    render_pages sample_mm sample_world 3 sample_loaded
      {| canvas := Canvas_new "cards.pdf"; card_index := 0;
         stdout := [] |} = Ok st' /\
    pages (canvas st') =
      map (fun page =>
             flat_map (fun row =>
               flat_map (fun col =>
                 entry_ops sample_mm sample_world
                   (sample_loaded !! (9 * page + 3 * row + col))
                   (cell_x sample_mm col) (cell_y sample_mm row))
                 (seq 0 3)) (seq 0 3)
             ++ page_guides sample_mm)
        (seq 0 (num_pages 3)) /\
    card_index st' = 3 /\
    (forall k, k < 3 -> is_Some (sample_loaded !! k)) /\
    (forall k x y, 3 <= k ->
       entry_ops sample_mm sample_world (sample_loaded !! k) x y = []) /\
    (forall row col st, card_index st < 3 ->
       exists st1,
         draw_cell sample_mm sample_world 3 sample_loaded row col st = Ok st1 /\
         card_index st1 = S (card_index st) /\
         extends (canvas st)
           (entry_ops sample_mm sample_world (sample_loaded !! card_index st)
              (cell_x sample_mm col) (cell_y sample_mm row))
           (canvas st1)) /\
    (forall row col st, 3 <= card_index st ->
       draw_cell sample_mm sample_world 3 sample_loaded row col st = Ok st).
Proof.
  split; [reflexivity|].
  apply (images_consumed_in_order sample_mm sample_world 3 sample_loaded
           "cards.pdf" []); reflexivity.
Defined.

(** *** Loading an image *)

Lemma load_image_try_unfold w path :
  load_image_try w path =
  Image_open w path ≫= (fun f =>
  PIL.load f ≫= (fun img =>
  PIL.alpha_composite
    (PIL.new_RGBA (PIL.size (PIL.convert_RGBA img)) white)
    (PIL.convert_RGBA img) ≫= (fun composite =>
  Ok {| reader_image := PIL.convert_RGB composite |}))).
Proof. reflexivity. Qed.

Lemma load_image_caught w path e :
  load_image_try w path = Raise e -> load_image w path = None.
Proof. unfold load_image. by intros ->. Qed.

Lemma load_image_open_fails w path e :
  Image_open w path = Raise e -> load_image w path = None.
Proof.
  intros H. apply (load_image_caught w path e).
  by rewrite load_image_try_unfold, H.
Qed.

Lemma load_image_decode_fails w path f e :
  Image_open w path = Ok f -> PIL.decode f = Raise e ->
  load_image w path = None.
Proof.
  intros H1 H2. apply (load_image_caught w path e).
  rewrite load_image_try_unfold, H1, bind_Ok. unfold PIL.load. by rewrite H2.
Qed.

Lemma load_image_composite_fails w path f d e :
  Image_open w path = Ok f -> PIL.decode f = Ok d ->
  PIL.alpha_composite
    (PIL.new_RGBA (PIL.header_size f) white)
    (PIL.convert_RGBA {| PIL.size := PIL.header_size f; PIL.data := d |})
  = Raise e ->
  load_image w path = None.
Proof.
  intros H1 H2 H3. apply (load_image_caught w path e).
  rewrite load_image_try_unfold, H1, bind_Ok. unfold PIL.load.
  rewrite H2, !bind_Ok. cbn [PIL.convert_RGBA PIL.size].
  cbn [PIL.convert_RGBA PIL.size] in H3. by rewrite H3.
Qed.

(** C5: a failure while opening, decoding or compositing an image never
    leaves load_image: the result is [None].  The renderer then draws the
    outline of the cell and the label "加载图片错误" in the cell of that
    image, and the run still completes, with a saved document of
    [num_pages] pages. *)
Theorem load_failure_gives_placeholder (mm : Q) (w : World)
    (oracle : list nat) (image_folder output_filename : string)
    (entries : list string) :
  os_listdir w image_folder = Ok entries ->
  writable w output_filename = true ->
  (forall path e, load_image_try w path = Raise e ->
     load_image w path = None) /\
  (forall path e, Image_open w path = Raise e -> load_image w path = None) /\
  (forall path f e, Image_open w path = Ok f -> PIL.decode f = Raise e ->
     load_image w path = None) /\
  (forall path f d e, Image_open w path = Ok f -> PIL.decode f = Ok d ->
     PIL.alpha_composite
       (PIL.new_RGBA (PIL.header_size f) white)
       (PIL.convert_RGBA {| PIL.size := PIL.header_size f; PIL.data := d |})
     = Raise e ->
     load_image w path = None) /\
  exists r,
    create_pdf_from_folder mm w oracle image_folder output_filename = Ok r /\
    length (pages (document r)) =
      num_pages (length (list_images image_folder entries)) /\
    saved (document r) = true /\
    forall k path,
      list_images image_folder entries !! k = Some path ->
      load_image w path = None ->
      exists before after,
        pages (document r) !! (k / 9) =
        Some (before ++
              [Rect (cell_x mm (k `mod` 3)) (cell_y mm (k `mod` 9 / 3))
                 (card_width mm) (card_height mm) true false;
               DrawString (cell_x mm (k `mod` 3) + 5)%Q
                 (cell_y mm (k `mod` 9 / 3) + card_height mm / 2)%Q
                 "加载图片错误"]
              ++ after).
Proof.
  intros Hdir Hout.
  split; [apply load_image_caught|].
  split; [apply load_image_open_fails|].
  split; [apply load_image_decode_fails|].
  split; [apply load_image_composite_fails|].
  destruct (create_pdf_spec mm w oracle image_folder output_filename entries
              Hdir Hout) as (r & E & P & _ & _ & S).
  exists r. split; [exact E|]. rewrite P.
  split; [by rewrite length_map, length_seq|]. split; [exact S|].
  intros k path Hk Hload.
  rewrite list_lookup_fmap, lookup_seq_lt
    by (apply page_of_entry_lt; by apply lookup_lt_Some in Hk).
  destruct (entry_cell_on_page mm w
              (preload_images w oracle (list_images image_folder entries)) k)
    as (b & a & H).
  exists b, a. cbn [fmap option_fmap option_map Nat.add]. f_equal. rewrite H.
  unfold cell_ops. rewrite preload_images_lookup, Hk. cbn [fmap option_fmap option_map].
  rewrite Hload. reflexivity.
Qed.

Lemma load_failure_gives_placeholder_witness :
  os_listdir sample_world "cards" = Ok sample_entries /\
  writable sample_world "cards.pdf" = true /\
  exists r,
    create_pdf_from_folder sample_mm sample_world [2; 0; 1] "cards" "cards.pdf"
      = Ok r /\
    length (pages (document r)) =
      num_pages (length (list_images "cards" sample_entries)) /\
    saved (document r) = true /\
    forall k path,
      list_images "cards" sample_entries !! k = Some path ->
      load_image sample_world path = None ->
      exists before after,
        pages (document r) !! (k / 9) =
        Some (before ++
              [Rect (cell_x sample_mm (k `mod` 3))
                 (cell_y sample_mm (k `mod` 9 / 3))
                 (card_width sample_mm) (card_height sample_mm) true false;
               DrawString (cell_x sample_mm (k `mod` 3) + 5)%Q
                 (cell_y sample_mm (k `mod` 9 / 3)
                  + card_height sample_mm / 2)%Q
                 "加载图片错误"]
              ++ after).
Proof.
  split; [reflexivity|]. split; [reflexivity|].
  apply (load_failure_gives_placeholder sample_mm sample_world [2; 0; 1]
           "cards" "cards.pdf" sample_entries); reflexivity.
Defined.

(** C10: when drawing a loaded image raises, the exception is caught in
    the cell: the outline and the label "加载图片错误" are drawn there
    instead, the counter moves on, and the document is completed. *)
Theorem draw_failure_gives_placeholder (mm : Q) (w : World)
    (total_cards : nat) (loaded_images : list (string * option ImageReader))
    (output_filename : string) (out : list string) :
  length loaded_images = total_cards ->
  (forall row col st path img e,
     card_index st < total_cards ->
     loaded_images !! card_index st = Some (path, Some img) ->
     drawImage w (canvas st) img (cell_x mm col) (cell_y mm row)
       (card_width mm) (card_height mm) = Raise e ->
     exists st1,
       draw_cell mm w total_cards loaded_images row col st = Ok st1 /\
       extends (canvas st)
         [Rect (cell_x mm col) (cell_y mm row)
            (card_width mm) (card_height mm) true false;
          DrawString (cell_x mm col + 5)%Q
            (cell_y mm row + card_height mm / 2)%Q "加载图片错误"]
         (canvas st1) /\
       card_index st1 = S (card_index st)) /\
  exists st',
    render_pages mm w total_cards loaded_images
      {| canvas := Canvas_new output_filename; card_index := 0;
         stdout := out |} = Ok st' /\
    length (pages (canvas st')) = num_pages total_cards /\
    card_index st' = total_cards /\
    forall k path img,
      loaded_images !! k = Some (path, Some img) ->
      drawImage_raises w img = true ->
      exists before after,
        pages (canvas st') !! (k / 9) =
        Some (before ++
              [Rect (cell_x mm (k `mod` 3)) (cell_y mm (k `mod` 9 / 3))
                 (card_width mm) (card_height mm) true false;
               DrawString (cell_x mm (k `mod` 3) + 5)%Q
                 (cell_y mm (k `mod` 9 / 3) + card_height mm / 2)%Q
                 "加载图片错误"]
              ++ after).
Proof.
  intros Hlen. split.
  - intros row col st path img e Hlt Hl Hraise.
    destruct (draw_cell_spec mm w total_cards loaded_images Hlen
                row col (card_index st) st) as (st1 & E1 & X1 & I1); [lia|].
    exists st1. split; [exact E1|]. split; [|lia].
    unfold cell_ops in X1. rewrite Hl in X1. cbn [entry_ops] in X1.
    unfold drawImage in Hraise.
    destruct (drawImage_raises w img); [exact X1 | discriminate].
  - destruct (render_pages_lookup mm w total_cards loaded_images
                output_filename out Hlen) as (st' & E & L & I & P).
    exists st'. split; [exact E|]. split; [exact L|]. split; [exact I|].
    intros k path img Hk Hraise.
    rewrite P by (apply page_of_entry_lt; apply lookup_lt_Some in Hk; lia).
    destruct (entry_cell_on_page mm w loaded_images k) as (b & a & H).
    exists b, a. f_equal. rewrite H. unfold cell_ops. rewrite Hk.
    cbn [entry_ops]. rewrite Hraise. reflexivity.
Qed.

Lemma draw_failure_gives_placeholder_witness :
  length sample_loaded = 3 /\
  exists st',
    render_pages sample_mm sample_world 3 sample_loaded
      {| canvas := Canvas_new "cards.pdf"; card_index := 0;
         stdout := [] |} = Ok st' /\
    length (pages (canvas st')) = num_pages 3 /\
    card_index st' = 3 /\
    forall k path img,
      sample_loaded !! k = Some (path, Some img) ->
      drawImage_raises sample_world img = true ->
      exists before after,
        pages (canvas st') !! (k / 9) =
        Some (before ++
              [Rect (cell_x sample_mm (k `mod` 3))
                 (cell_y sample_mm (k `mod` 9 / 3))
                 (card_width sample_mm) (card_height sample_mm) true false;
               DrawString (cell_x sample_mm (k `mod` 3) + 5)%Q
                 (cell_y sample_mm (k `mod` 9 / 3)
                  + card_height sample_mm / 2)%Q
                 "加载图片错误"]
              ++ after).
Proof.
  split; [reflexivity|].
  apply (draw_failure_gives_placeholder sample_mm sample_world 3
           sample_loaded "cards.pdf" []); reflexivity.
Defined.

(** C2: a run over N enumerated images produces max(1, ceil(N / 9))
    pages: the document has [num_pages N] pages, which is [max 1 k] for
    the k with N <= 9 k < N + 9; in particular 0 images give 1 page, 9
    give 1, 10 give 2 and 18 give 2. *)
Theorem page_count (mm : Q) (w : World) (oracle : list nat)
    (image_folder output_filename : string) (entries : list string) :
  os_listdir w image_folder = Ok entries ->
  writable w output_filename = true ->
  exists r,
    create_pdf_from_folder mm w oracle image_folder output_filename = Ok r /\
    length (pages (document r)) =
      num_pages (length (list_images image_folder entries)) /\
    (forall k,
       length (list_images image_folder entries) <= 9 * k ->
       9 * k < length (list_images image_folder entries) + 9 ->
       length (pages (document r)) = Nat.max 1 k) /\
    (forall n k, n <= 9 * k -> 9 * k < n + 9 -> num_pages n = Nat.max 1 k) /\
    num_pages 0 = 1 /\ num_pages 9 = 1 /\ num_pages 10 = 2 /\
    num_pages 18 = 2.
Proof.
  intros Hdir Hout.
  destruct (create_pdf_lookup mm w oracle image_folder output_filename entries
              Hdir Hout) as (r & E & L & _).
  exists r. split; [exact E|]. split; [exact L|]. split.
  - intros k H1 H2. rewrite L. by apply num_pages_ceiling.
  - split; [apply num_pages_ceiling|]. by repeat split.
Qed.

Lemma page_count_witness :
  os_listdir sample_world "cards" = Ok sample_entries /\
  writable sample_world "cards.pdf" = true /\
  exists r,
    create_pdf_from_folder sample_mm sample_world [2; 0; 1] "cards" "cards.pdf"
      = Ok r /\
    length (pages (document r)) =
      num_pages (length (list_images "cards" sample_entries)) /\
    (forall k,
       length (list_images "cards" sample_entries) <= 9 * k ->
       9 * k < length (list_images "cards" sample_entries) + 9 ->
       length (pages (document r)) = Nat.max 1 k) /\
    (forall n k, n <= 9 * k -> 9 * k < n + 9 -> num_pages n = Nat.max 1 k) /\
    num_pages 0 = 1 /\ num_pages 9 = 1 /\ num_pages 10 = 2 /\
    num_pages 18 = 2.
Proof.
  split; [reflexivity|]. split; [reflexivity|].
  apply (page_count sample_mm sample_world [2; 0; 1] "cards" "cards.pdf"
           sample_entries); reflexivity.
Defined.

(** C4: preload_images returns, for every order in which the pool
    completes the loads, the list that pairs the i-th path with the result
    of loading the i-th path: same length, same order.  Every permutation
    of the submitted loads is the completion order of some oracle, and all
    of them give this same list. *)
Theorem preload_keeps_input_order (w : World) (oracle : list nat)
    (image_paths : list string) :
  preload_images w oracle image_paths =
    zip image_paths (map (load_image w) image_paths) /\
  length (preload_images w oracle image_paths) = length image_paths /\
  map fst (preload_images w oracle image_paths) = image_paths /\
  (forall i,
     preload_images w oracle image_paths !! i =
     (fun path => (path, load_image w path)) <$> image_paths !! i) /\
  (forall sigma,
     Permutation sigma (seq 0 (length image_paths)) ->
     exists oracle',
       completion_order (length image_paths) (seq 0 (length image_paths))
         oracle' = sigma /\
       preload_images w oracle' image_paths =
       preload_images w oracle image_paths).
Proof.
  split; [apply preload_images_spec|].
  split; [apply preload_images_length|].
  split; [|split].
  - rewrite preload_images_spec. apply fst_zip. rewrite length_map. lia.
  - apply preload_images_lookup.
  - intros sigma Hp.
    destruct (every_completion_order sigma (seq 0 (length image_paths)) Hp)
      as [o Ho].
    rewrite length_seq in Ho.
    exists o. split; [exact Ho|]. by rewrite !preload_images_spec.
Qed.

(** *** Cut guides *)

Section Guides.

Variable mm : Q.
Hypothesis mm_pos : (0 < mm)%Q.

Lemma card_is_not_guide x y stroke fill :
  is_guide mm (Rect x y (card_width mm) (card_height mm) stroke fill) = false.
Proof.
  cbn [is_guide].
  destruct (Qeq_bool (card_width mm) (gap mm)) eqn:E; [|reflexivity].
  apply Qeq_bool_eq in E. unfold card_width, gap in E. lra.
Qed.

Lemma guide_square_is_guide v h : is_guide mm (guide_square mm v h) = true.
Proof. cbn [is_guide guide_square]. by rewrite Qeq_bool_refl. Qed.

Lemma entry_ops_no_guide w e x y :
  List.filter (is_guide mm) (entry_ops mm w e x y) = [].
Proof.
  assert (P : List.filter (is_guide mm) (placeholder_ops mm x y) = []).
  { unfold placeholder_ops. cbn [List.filter].
    by rewrite card_is_not_guide. }
  destruct e as [[p [img|]]|]; cbn [entry_ops]; [|exact P|reflexivity].
  destruct (drawImage_raises w img); [exact P | reflexivity].
Qed.

Lemma page_cells_no_guide w loaded page :
  List.filter (is_guide mm) (page_cells mm w loaded page) = [].
Proof.
  unfold page_cells, cell_ops. cbn [flat_map seq].
  by rewrite !List.filter_app, !entry_ops_no_guide.
Qed.

Lemma column_guides v (l : list nat) :
  List.filter (is_guide mm)
    (flat_map (fun h => [SetLineWidth (1 # 2); guide_square mm v h]) l) =
  map (guide_square mm v) l.
Proof.
  induction l as [|h l IH]; [reflexivity|].
  cbn [flat_map map app List.filter]. rewrite guide_square_is_guide.
  cbn [is_guide]. by rewrite IH.
Qed.

Lemma grid_guides (vs hs : list nat) :
  List.filter (is_guide mm)
    (flat_map (fun v =>
       flat_map (fun h => [SetLineWidth (1 # 2); guide_square mm v h]) hs)
       vs) =
  flat_map (fun v => map (guide_square mm v) hs) vs.
Proof.
  induction vs as [|v vs IH]; [reflexivity|].
  cbn [flat_map]. by rewrite List.filter_app, column_guides, IH.
Qed.

Lemma page_guides_filter :
  List.filter (is_guide mm) (page_guides mm) =
  flat_map (fun v => map (guide_square mm v) (seq 0 4)) (seq 0 4).
Proof. apply grid_guides. Qed.

Lemma expected_page_guides w loaded page :
  List.filter (is_guide mm) (expected_page mm w loaded page) =
  flat_map (fun v => map (guide_square mm v) (seq 0 4)) (seq 0 4).
Proof.
  unfold expected_page.
  by rewrite List.filter_app, page_cells_no_guide, page_guides_filter.
Qed.

(** A guide square and a card box never share an interior point: their
    projections on the horizontal axis are already disjoint. *)
Lemma guide_misses_cards v h row col px py :
  inside (x_square mm v) (y_square mm h) (gap mm) (gap mm) px py ->
  inside (cell_x mm col) (cell_y mm row) (card_width mm) (card_height mm)
    px py ->
  False.
Proof.
  unfold inside, x_square, cell_x, card_width, gap.
  intros (G1 & G2 & _) (C1 & C2 & _).
  destruct (Nat.le_gt_cases v col) as [Hle|Hgt].
  - apply Qnat_le in Hle. nra.
  - apply Qnat_le in Hgt. rewrite Qnat_S in Hgt. nra.
Qed.

End Guides.

(** C6: every page of the document carries exactly (columns + 1) *
    (rows + 1) = 16 outlines of gap x gap squares, one at each crossing
    (v, h) of the grid lines, with lower-left corner at
    (leftMargin + v * (cardWidth + gap), bottomMargin + h * (cardHeight +
    gap)); none of them has an interior point in common with the box of a
    card. *)
Theorem guide_squares (mm : Q) (w : World) (total_cards : nat)
    (loaded_images : list (string * option ImageReader))
    (output_filename : string) (out : list string) :
  (0 < mm)%Q ->
  length loaded_images = total_cards ->
  exists st',
    render_pages mm w total_cards loaded_images
      {| canvas := Canvas_new output_filename; card_index := 0;
         stdout := out |} = Ok st' /\
    (forall page ops,
       pages (canvas st') !! page = Some ops ->
       List.filter (is_guide mm) ops =
         flat_map (fun v =>
           map (fun h =>
                  Rect (left_margin mm + Qnat v * (card_width mm + gap mm))%Q
                       (bottom_margin mm + Qnat h * (card_height mm + gap mm))%Q
                       (gap mm) (gap mm) true false)
             (seq 0 (rows + 1))) (seq 0 (columns + 1)) /\
       length (List.filter (is_guide mm) ops) = (columns + 1) * (rows + 1) /\
       length (List.filter (is_guide mm) ops) = 16) /\
    (forall v h row col px py,
       inside (left_margin mm + Qnat v * (card_width mm + gap mm))%Q
              (bottom_margin mm + Qnat h * (card_height mm + gap mm))%Q
              (gap mm) (gap mm) px py ->
       inside (cell_x mm col) (cell_y mm row) (card_width mm) (card_height mm)
              px py ->
       False).
Proof.
  intros Hmm Hlen.
  destruct (render_pages_lookup mm w total_cards loaded_images
              output_filename out Hlen) as (st' & E & L & _ & P).
  exists st'. split; [exact E|]. split.
  - intros page ops Hops.
    assert (Hp : page < num_pages total_cards).
    { apply lookup_lt_Some in Hops. lia. }
    rewrite (P page Hp) in Hops. injection Hops as <-.
    rewrite (expected_page_guides mm Hmm). by repeat split.
  - intros v h row col px py. apply (guide_misses_cards mm Hmm).
Qed.

Lemma guide_squares_witness :
  (0 < sample_mm)%Q /\
  length sample_loaded = 3 /\
  exists st',
    render_pages sample_mm sample_world 3 sample_loaded
      {| canvas := Canvas_new "cards.pdf"; card_index := 0;
         stdout := [] |} = Ok st' /\
    (forall page ops,
       pages (canvas st') !! page = Some ops ->
       List.filter (is_guide sample_mm) ops =
         flat_map (fun v =>
           map (fun h =>
                  Rect (left_margin sample_mm
                        + Qnat v * (card_width sample_mm + gap sample_mm))%Q
                       (bottom_margin sample_mm
                        + Qnat h * (card_height sample_mm + gap sample_mm))%Q
                       (gap sample_mm) (gap sample_mm) true false)
             (seq 0 (rows + 1))) (seq 0 (columns + 1)) /\
       length (List.filter (is_guide sample_mm) ops)
         = (columns + 1) * (rows + 1) /\
       length (List.filter (is_guide sample_mm) ops) = 16) /\
    (forall v h row col px py,
       inside (left_margin sample_mm
               + Qnat v * (card_width sample_mm + gap sample_mm))%Q
              (bottom_margin sample_mm
               + Qnat h * (card_height sample_mm + gap sample_mm))%Q
              (gap sample_mm) (gap sample_mm) px py ->
       inside (cell_x sample_mm col) (cell_y sample_mm row)
              (card_width sample_mm) (card_height sample_mm) px py ->
       False).
Proof.
  split; [reflexivity|]. split; [reflexivity|].
  apply (guide_squares sample_mm sample_world 3 sample_loaded
           "cards.pdf" []); reflexivity.
Defined.

(** *** Listing the folder *)

Lemma lower_ascii_dot c : Ascii.eqb (lower_ascii c) "." = Ascii.eqb c ".".
Proof. destruct c as [[] [] [] [] [] [] [] []]; reflexivity. Qed.

Lemma extension_lower f : extension (lower f) = lower <$> extension f.
Proof.
  induction f as [|c f IH]; [reflexivity|].
  cbn [lower extension]. rewrite IH, lower_ascii_dot.
  destruct (extension f); [reflexivity|]. by destruct (Ascii.eqb c ".").
Qed.

(** Ending in a dot followed by a dot-free [e] is having extension [e]. *)
Lemma endswith_extension e : extension e = None -> forall s,
  endswith s (String "." e) = true <-> extension s = Some e.
Proof.
  intros He. induction s as [|c s IH].
  - cbn. split; discriminate.
  - cbn [endswith extension]. rewrite orb_true_iff, IH, String.eqb_eq.
    split.
    + intros [[= -> ->]|H].
      * by rewrite He.
      * by rewrite H.
    + destruct (extension s) as [e'|] eqn:Es.
      * intros [= ->]. by right.
      * destruct (Ascii.eqb_spec c "."); [|discriminate].
        intros [= ->]. left. by subst.
Qed.

(** The test of the program is the test of the specification. *)
Lemma is_image_name_spec f :
  endswith_any (lower f) supported_extensions = is_image_name f.
Proof.
  apply Bool.eq_iff_eq_true.
  unfold endswith_any, supported_extensions. cbn [existsb].
  rewrite !orb_true_iff, !endswith_extension by reflexivity.
  rewrite extension_lower. unfold is_image_name, image_extensions.
  destruct (extension f) as [e|]; cbn [fmap option_fmap option_map].
  - rewrite bool_decide_eq_true, !elem_of_cons, elem_of_nil.
    split; intros H; repeat (destruct H as [H|H]);
      try discriminate; try (injection H as H); try contradiction;
      rewrite H; auto 10.
  - split; [|discriminate].
    intros H; repeat (destruct H as [H|H]); discriminate.
Qed.

Lemma filter_image_names (entries : list string) :
  filter (fun f => endswith_any (lower f) supported_extensions = true) entries =
  filter (fun f => is_image_name f = true) entries.
Proof.
  apply list_filter_iff. intros f. by rewrite is_image_name_spec.
Qed.

Lemma append_assoc (a b c : string) :
  ((a ++ b) ++ c = a ++ b ++ c)%string.
Proof.
  induction a as [|x a IH]; [reflexivity|].
  change (String x ((a ++ b) ++ c) = String x (a ++ b ++ c))%string.
  by rewrite IH.
Qed.

(** A name that does not start with the separator is joined by putting
    the folder's prefix in front of it. *)
Lemma os_path_join_prefix a f :
  startswith f sep = false ->
  os_path_join a f = (folder_prefix a ++ f)%string.
Proof.
  intros Hf. unfold os_path_join, folder_prefix. rewrite Hf. cbn [orb].
  destruct (String.eqb a ""); [reflexivity|].
  destruct (endswith a sep); [reflexivity|]. symmetry. apply append_assoc.
Qed.

Lemma ascii_compare_refl c : Ascii.compare c c = Eq.
Proof. unfold Ascii.compare. apply N.compare_refl. Qed.

Lemma compare_append p a b :
  String.compare (p ++ a) (p ++ b) = String.compare a b.
Proof.
  induction p as [|c p IH]; [reflexivity|].
  change (match Ascii.compare c c with
          | Eq => String.compare (p ++ a) (p ++ b)
          | o => o
          end = String.compare a b).
  by rewrite ascii_compare_refl.
Qed.

Lemma leb_append p a b :
  String.leb (p ++ a) (p ++ b) = String.leb a b.
Proof. unfold String.leb. by rewrite compare_append. Qed.

Lemma insert_sorted_append p x l :
  insert_sorted (p ++ x)%string (map (String.append p) l) =
  map (String.append p) (insert_sorted x l).
Proof.
  induction l as [|y l IH]; [reflexivity|].
  cbn [map insert_sorted]. rewrite leb_append.
  destruct (String.leb x y); [reflexivity|]. by rewrite IH.
Qed.

(** Sorting paths below one folder is sorting the names. *)
Lemma sort_append p l :
  sort (map (String.append p) l) = map (String.append p) (sort l).
Proof.
  induction l as [|x l IH]; [reflexivity|].
  cbn [map sort]. by rewrite IH, insert_sorted_append.
Qed.

Lemma insert_sorted_perm x l : Permutation (insert_sorted x l) (x :: l).
Proof.
  induction l as [|y l IH]; [reflexivity|]. cbn [insert_sorted].
  destruct (String.leb x y); [reflexivity|].
  rewrite IH. apply perm_swap.
Qed.

Lemma sort_perm l : Permutation (sort l) l.
Proof.
  induction l as [|x l IH]; [reflexivity|]. cbn [sort].
  by rewrite insert_sorted_perm, IH.
Qed.

Lemma insert_sorted_sorted x l :
  Sorted (fun a b => String.leb a b = true) l ->
  Sorted (fun a b => String.leb a b = true) (insert_sorted x l).
Proof.
  induction 1 as [|y l Hs IH Hd]; cbn [insert_sorted].
  - by repeat constructor.
  - destruct (String.leb x y) eqn:E.
    + by repeat constructor.
    + constructor; [exact IH|].
      assert (Hyx : String.leb y x = true).
      { destruct (String.leb_total x y); congruence. }
      destruct Hd as [|z l Hz]; cbn [insert_sorted]; [by constructor|].
      destruct (String.leb x z); by constructor.
Qed.

Lemma sort_sorted l : Sorted (fun a b => String.leb a b = true) (sort l).
Proof.
  induction l as [|x l IH]; [constructor|]. by apply insert_sorted_sorted.
Qed.

Lemma list_images_refines image_folder entries :
  Forall (fun f => startswith f sep = false) entries ->
  list_images image_folder entries = images_of_folder image_folder entries.
Proof.
  intros Hvalid. unfold list_images, images_of_folder.
  rewrite filter_image_names.
  set (names := filter (fun f => is_image_name f = true) entries).
  assert (Hnames : Forall (fun f => startswith f sep = false) names).
  { apply Forall_forall. intros f Hf. rewrite Forall_forall in Hvalid.
    apply Hvalid. subst names. by apply list_elem_of_filter in Hf as [_ ?]. }
  assert (Hsorted : Forall (fun f => startswith f sep = false) (sort names)).
  { by rewrite sort_perm. }
  assert (J1 : Forall (fun f => os_path_join image_folder f =
                        (folder_prefix image_folder ++ f)%string) names).
  { eapply Forall_impl; [exact Hnames|].
    intros f Hf. by apply os_path_join_prefix. }
  assert (J2 : Forall (fun f => os_path_join image_folder f =
                        (folder_prefix image_folder ++ f)%string) (sort names)).
  { eapply Forall_impl; [exact Hsorted|].
    intros f Hf. by apply os_path_join_prefix. }
  rewrite (map_ext_Forall _ _ J1), (map_ext_Forall _ _ J2).
  apply sort_append.
Qed.

(** C3: the images considered for a folder are exactly its entries whose
    extension is jpg, jpeg, png, bmp or gif in any mix of cases, as paths
    below the folder, in the lexicographic order of their names; nothing
    else is considered.  (Directory entries are names: none starts with
    the path separator.) *)
Theorem listing_is_filtered_and_sorted (image_folder : string)
    (entries : list string) :
  Forall (fun f => startswith f sep = false) entries ->
  list_images image_folder entries =
    map (os_path_join image_folder)
      (sort (filter (fun f => is_image_name f = true) entries)) /\
  Sorted (fun a b => String.leb a b = true)
    (sort (filter (fun f => is_image_name f = true) entries)) /\
  Permutation
    (sort (filter (fun f => is_image_name f = true) entries))
    (filter (fun f => is_image_name f = true) entries) /\
  Sorted (fun a b => String.leb a b = true) (list_images image_folder entries) /\
  (forall p,
     p ∈ list_images image_folder entries <->
     exists f e,
       f ∈ entries /\ extension f = Some e /\
       lower e ∈ ["jpg"; "jpeg"; "png"; "bmp"; "gif"]%string /\
       p = os_path_join image_folder f) /\
  (forall f,
     endswith_any (lower f) supported_extensions = true <->
     exists e, extension f = Some e /\
               lower e ∈ ["jpg"; "jpeg"; "png"; "bmp"; "gif"]%string).
Proof.
  intros Hvalid.
  assert (Hname : forall f,
            is_image_name f = true <->
            exists e, extension f = Some e /\
                      lower e ∈ ["jpg"; "jpeg"; "png"; "bmp"; "gif"]%string).
  { intros f. unfold is_image_name. destruct (extension f) as [e|].
    - rewrite bool_decide_eq_true. split; [by exists e|].
      by intros (e' & [= ->] & H).
    - split; [discriminate|]. by intros (e' & [=] & _). }
  split; [by apply list_images_refines|].
  split; [apply sort_sorted|]. split; [apply sort_perm|].
  split; [apply sort_sorted|]. split.
  - intros p. rewrite list_images_refines by done. unfold images_of_folder.
    rewrite list_elem_of_fmap. split.
    + intros (f & -> & Hf). rewrite sort_perm in Hf.
      apply list_elem_of_filter in Hf as [Hi Hf].
      apply Hname in Hi as (e & He & Hl). by exists f, e.
    + intros (f & e & Hf & He & Hl & ->). exists f. split; [done|].
      rewrite sort_perm. apply list_elem_of_filter. split; [|done].
      apply Hname. by exists e.
  - intros f. by rewrite is_image_name_spec.
Qed.

Lemma listing_is_filtered_and_sorted_witness :
  Forall (fun f => startswith f sep = false) sample_entries /\
  list_images "cards" sample_entries =
    map (os_path_join "cards")
      (sort (filter (fun f => is_image_name f = true) sample_entries)) /\
  list_images "cards" sample_entries =
    ["cards/a.jpg"; "cards/b.PNG"; "cards/c.gif"]%string.
Proof.
  split; [by repeat constructor|].
  split; [|reflexivity].
  apply (listing_is_filtered_and_sorted "cards" sample_entries).
  by repeat constructor.
Defined.

(** *** Compositing an opaque image over white *)











(** A pixel of the colour a file names as transparent is not opaque: it
    is flattened to white like any transparent pixel. *)
Lemma keyed_pixel_is_whitened :
  PIL.convert_RGB
    (PIL.convert_RGBA
       {| PIL.size := (2, 1);
          PIL.data := PIL.ModeRGBKey [(10, 20, 30); (0, 255, 0)]%Z
                        (0, 255, 0)%Z |})
  = {| PIL.size := (2, 1);
       PIL.data := PIL.ModeRGB [(10, 20, 30); (0, 255, 0)]%Z |} /\
  PIL.alpha_composite (PIL.new_RGBA (2, 1) white)
    (PIL.convert_RGBA
       {| PIL.size := (2, 1);
          PIL.data := PIL.ModeRGBKey [(10, 20, 30); (0, 255, 0)]%Z
                        (0, 255, 0)%Z |})
  = Ok {| PIL.size := (2, 1);
          PIL.data := PIL.ModeRGBA
            [(10, 20, 30, 255); (255, 255, 255, 255)]%Z |}.
Proof. split; reflexivity. Qed.

(** ** Further properties of the program *)

(** *** Console output *)

Lemma for_each_invariant {A S : Type} (I : S -> Prop) (l : list A)
    (body : A -> S -> result S) :
  (forall x st, I st -> exists st', body x st = Ok st' /\ I st') ->
  forall st, I st -> exists st', for_each l body st = Ok st' /\ I st'.
Proof.
  intros Hbody. induction l as [|x l IH]; intros st Hst.
  - by exists st.
  - cbn [for_each]. destruct (Hbody x st Hst) as (st1 & -> & H1).
    by apply IH.
Qed.

Lemma for_range_invariant {S : Type} (I : S -> Prop) (n : nat)
    (body : nat -> S -> result S) :
  (forall x st, I st -> exists st', body x st = Ok st' /\ I st') ->
  forall st, I st -> exists st', for_range n body st = Ok st' /\ I st'.
Proof. apply for_each_invariant. Qed.

Section Console.

Variable mm : Q.
Variable w : World.
Variable total_cards : nat.
Variable loaded_images : list (string * option ImageReader).
Variable out : list string.
Hypothesis loaded_length : length loaded_images = total_cards.

Lemma draw_cell_console p row col st :
  console_inv total_cards out p st ->
  exists st',
    draw_cell mm w total_cards loaded_images row col st = Ok st' /\
    console_inv total_cards out p st'.
Proof.
  intros [Hle Hout]. unfold draw_cell.
  destruct (Nat.ltb_spec (card_index st) total_cards) as [Hlt|Hge].
  - destruct (lookup_lt_is_Some_2 loaded_images (card_index st))
      as [[path o] Hl]; [lia|].
    rewrite Hl. eexists. split; [reflexivity|].
    split; cbn [card_index stdout]; [lia|].
    rewrite Hout. unfold console_so_far.
    destruct (Nat.eqb_spec total_cards 0) as [H0|_]; [lia|].
    rewrite seq_S, map_app, app_assoc. reflexivity.
  - exists st. by split.
Qed.

Lemma draw_guide_console p v h st :
  console_inv total_cards out p st ->
  exists st', draw_guide mm v h st = Ok st' /\ console_inv total_cards out p st'.
Proof. intros H. eexists. split; [reflexivity|]. exact H. Qed.

Lemma render_page_console p page st :
  console_inv total_cards out p st ->
  exists st',
    render_page mm w total_cards loaded_images page st = Ok st' /\
    console_inv total_cards out (S p) st'.
Proof.
  intros H. rewrite render_page_unfold.
  destruct (for_range_invariant (console_inv total_cards out p) rows
              (fun row => for_range columns (fun col =>
                 draw_cell mm w total_cards loaded_images row col)))
    with (st := st) as (st1 & E1 & H1); [|exact H|].
  { intros row st0 H0. apply for_range_invariant; [|exact H0].
    intros col st2 H2. by apply draw_cell_console. }
  rewrite E1, bind_Ok.
  set (st2 := if (total_cards =? 0)%nat then _ else st1).
  assert (H2 : console_inv total_cards out (S p) st2).
  { subst st2. destruct H1 as [Hle Hout].
    unfold console_inv, console_so_far.
    destruct (Nat.eqb_spec total_cards 0) as [H0|Hn];
      cbn [card_index stdout]; (split; [exact Hle|]).
    - unfold console_so_far in Hout. rewrite H0 in Hout. cbn [Nat.eqb] in Hout.
      rewrite Hout, <- app_assoc. f_equal.
      rewrite <- repeat_cons. reflexivity.
    - unfold console_so_far in Hout.
      destruct (Nat.eqb_spec total_cards 0); [lia|exact Hout]. }
  destruct (for_range_invariant (console_inv total_cards out (S p)) (columns + 1)
              (fun v => for_range (rows + 1) (fun h => draw_guide mm v h)))
    with (st := st2) as (st3 & E3 & H3); [|exact H2|].
  { intros v st0 H0. apply for_range_invariant; [|exact H0].
    intros h st4 H4. by apply draw_guide_console. }
  rewrite E3, bind_Ok.
  eexists. split; [reflexivity|]. exact H3.
Qed.

Lemma render_pages_console_from n : forall s p st,
  console_inv total_cards out p st ->
  exists st',
    for_each (seq s n) (render_page mm w total_cards loaded_images) st
      = Ok st' /\
    console_inv total_cards out (p + n) st'.
Proof.
  induction n as [|n IH]; intros s p st H.
  - exists st. by rewrite Nat.add_0_r.
  - cbn [seq for_each].
    destruct (render_page_console p s st H) as (st1 & -> & H1).
    destruct (IH (S s) (S p) st1 H1) as (st2 & E2 & H2).
    exists st2. split; [exact E2|]. by rewrite <- Nat.add_succ_comm.
Qed.

(** The console after rendering: one progress text per image, numbered
    from 1, or the single blank-grid notice. *)
Lemma render_pages_console output_filename :
  exists st',
    render_pages mm w total_cards loaded_images
      {| canvas := Canvas_new output_filename; card_index := 0;
         stdout := out |} = Ok st' /\
    stdout st' =
      out ++ console_so_far total_cards (num_pages total_cards) total_cards /\
    code (canvas st') = [] /\
    filename (canvas st') = output_filename /\
    pages (canvas st') =
      map (expected_page mm w loaded_images) (seq 0 (num_pages total_cards)).
Proof.
  destruct (render_pages_spec mm w total_cards loaded_images loaded_length
              {| canvas := Canvas_new output_filename; card_index := 0;
                 stdout := out |} eq_refl eq_refl)
    as (st & E & P & C & F & _ & I).
  destruct (render_pages_console_from (num_pages total_cards) 0 0
              {| canvas := Canvas_new output_filename; card_index := 0;
                 stdout := out |}) as (st' & E' & _ & Hout).
  { split; cbn [card_index stdout]; [lia|].
    unfold console_so_far. destruct (total_cards =? 0)%nat;
      by rewrite app_nil_r. }
  unfold render_pages, for_range in E. rewrite E in E'. injection E' as <-.
  exists st. split; [exact E|]. rewrite Hout, I.
  split; [reflexivity|]. split; [exact C|]. split; [exact F|exact P].
Qed.

End Console.

Lemma save_fails w c :
  code c = [] ->
  writable w (filename c) = false ->
  save w c = Raise (open_error w (filename c)).
Proof.
  destruct c as [f ps cd sv]. cbn [code filename].
  intros -> Hw. unfold save. cbn. by rewrite Hw.
Qed.

(** The state in which rendering ends, for a listed folder. *)
Lemma create_pdf_rendered mm w oracle image_folder output_filename entries :
  os_listdir w image_folder = Ok entries ->
  exists st,
    create_pdf_from_folder mm w oracle image_folder output_filename =
      save w (canvas st) ≫= (fun c =>
      Ok {| document := c;
            console := stdout st ++ [LF; done_line output_filename] |}) /\
    stdout st =
      [loading_line] ++
      console_so_far (length (list_images image_folder entries))
        (num_pages (length (list_images image_folder entries)))
        (length (list_images image_folder entries)) /\
    code (canvas st) = [] /\
    filename (canvas st) = output_filename /\
    pages (canvas st) =
      map (expected_page mm w
             (preload_images w oracle (list_images image_folder entries)))
        (seq 0 (num_pages (length (list_images image_folder entries)))).
Proof.
  intros Hdir. rewrite create_pdf_unfold, Hdir, bind_Ok.
  destruct (render_pages_console mm w
              (length (list_images image_folder entries))
              (preload_images w oracle (list_images image_folder entries))
              [loading_line]
              (preload_images_length w oracle _) output_filename)
    as (st & E & Hout & C & F & P).
  exists st. unfold loading_line in E. rewrite E, bind_Ok.
  split; [reflexivity|]. by repeat split.
Qed.

(** The console of a completed run. *)
Lemma create_pdf_console mm w oracle image_folder output_filename entries :
  os_listdir w image_folder = Ok entries ->
  writable w output_filename = true ->
  exists r,
    create_pdf_from_folder mm w oracle image_folder output_filename = Ok r /\
    console r =
      [loading_line] ++
      console_so_far (length (list_images image_folder entries))
        (num_pages (length (list_images image_folder entries)))
        (length (list_images image_folder entries)) ++
      [LF; done_line output_filename] /\
    pages (document r) =
      map (expected_page mm w
             (preload_images w oracle (list_images image_folder entries)))
        (seq 0 (num_pages (length (list_images image_folder entries)))).
Proof.
  intros Hdir Hout.
  destruct (create_pdf_rendered mm w oracle image_folder output_filename
              entries Hdir) as (st & E & Hc & C & F & P).
  rewrite E, save_spec, bind_Ok by (by rewrite ?F).
  eexists. split; [reflexivity|]. cbn [console document pages].
  split; [|exact P]. rewrite Hc, <- app_assoc. reflexivity.
Qed.

(** X1: the errors of listing and of saving are passed on.  An
    exception of [os.listdir] leaves the function unchanged.  When the
    folder is listed (and the console takes the text) but the output
    cannot be opened for writing, the run raises what [open] raises, at
    [save], after all pages have been rendered.  When it can be opened,
    the run completes with a saved document under the given name and no
    page left in progress, whatever happens to the individual images. *)
Theorem listing_and_saving_errors_propagate (mm : Q) (w : World)
    (oracle : list nat) (image_folder output_filename : string) :
  (forall e, os_listdir w image_folder = Raise e ->
     create_pdf_from_folder mm w oracle image_folder output_filename
       = Raise e) /\
  (forall entries,
     os_listdir w image_folder = Ok entries ->
     writable w output_filename = false ->
     create_pdf_from_folder mm w oracle image_folder output_filename
       = Raise (open_error w output_filename)) /\
  (forall entries,
     os_listdir w image_folder = Ok entries ->
     writable w output_filename = true ->
     exists r,
       create_pdf_from_folder mm w oracle image_folder output_filename
         = Ok r /\
       saved (document r) = true /\
       filename (document r) = output_filename /\
       code (document r) = []).
Proof.
  split; [|split].
  - intros e He. by rewrite create_pdf_unfold, He.
  - intros entries Hdir Hout.
    destruct (create_pdf_rendered mm w oracle image_folder output_filename
                entries Hdir) as (st & E & _ & C & F & _).
    rewrite E, save_fails, F; [reflexivity | exact C | by rewrite F].
  - intros entries Hdir Hout.
    destruct (create_pdf_spec mm w oracle image_folder output_filename
                entries Hdir Hout) as (r & E & _ & C & F & S).
    by exists r.
Qed.

Lemma no_images_listed image_folder entries :
  Forall (fun f => endswith_any (lower f) supported_extensions = false)
    entries ->
  list_images image_folder entries = [].
Proof.
  intros H. unfold list_images.
  replace (filter _ entries) with (@nil string); [reflexivity|].
  symmetry. induction H as [|f l Hf Hl IH]; [reflexivity|].
  rewrite filter_cons_False by (rewrite Hf; discriminate). exact IH.
Qed.

(** Without entries, a page holds the guides only. *)
Lemma blank_page mm w page :
  expected_page mm w [] page =
  flat_map (fun v =>
    flat_map (fun h =>
      [SetLineWidth (1 # 2);
       Rect (x_square mm v) (y_square mm h) (gap mm) (gap mm) true false])
      (seq 0 4)) (seq 0 4).
Proof.
  unfold expected_page, page_cells, cell_ops. cbn [flat_map seq].
  rewrite !lookup_nil. reflexivity.
Qed.

(** X2: a folder without image names gives a document of exactly one
    page, which holds the sixteen guide squares and nothing else, and the
    console shows the loading line, the blank-grid notice and the closing
    lines. *)
Theorem empty_folder_gives_blank_grid (mm : Q) (w : World)
    (oracle : list nat) (image_folder output_filename : string)
    (entries : list string) :
  os_listdir w image_folder = Ok entries ->
  Forall (fun f => endswith_any (lower f) supported_extensions = false)
    entries ->
  writable w output_filename = true ->
  exists r,
    create_pdf_from_folder mm w oracle image_folder output_filename = Ok r /\
    pages (document r) =
      [flat_map (fun v =>
         flat_map (fun h =>
           [SetLineWidth (1 # 2);
            Rect (x_square mm v) (y_square mm h) (gap mm) (gap mm) true false])
           (seq 0 4)) (seq 0 4)] /\
    console r =
      [("正在并行加载图片..." ++ LF)%string;
       (CR ++ "生成空白网格页...")%string;
       LF;
       ("生成 PDF 文件：" ++ output_filename ++ LF)%string].
Proof.
  intros Hdir Hnone Hout.
  destruct (create_pdf_console mm w oracle image_folder output_filename
              entries Hdir Hout) as (r & E & Hc & P).
  rewrite (no_images_listed image_folder entries Hnone) in Hc, P.
  exists r. split; [exact E|]. split.
  - rewrite P, preload_images_spec.
    change (num_pages (length (@nil string))) with 1.
    change (seq 0 1) with [0]. cbn [map zip zip_with].
    rewrite blank_page. reflexivity.
  - rewrite Hc. change (length (@nil string)) with 0.
    change (num_pages 0) with 1.
    change (console_so_far 0 1 0) with [blank_line]. reflexivity.
Qed.

Lemma empty_folder_gives_blank_grid_witness :
  os_listdir empty_world "docs" = Ok ["README.md"; "notes.txt"]%string /\
  Forall (fun f => endswith_any (lower f) supported_extensions = false)
    ["README.md"; "notes.txt"]%string /\
  writable empty_world "cards.pdf" = true /\
  exists r,
    create_pdf_from_folder sample_mm empty_world [] "docs" "cards.pdf" = Ok r /\
    length (pages (document r)) = 1 /\
    length (console r) = 4.
Proof.
  split; [reflexivity|]. split; [by repeat constructor|].
  split; [reflexivity|].
  destruct (empty_folder_gives_blank_grid sample_mm empty_world [] "docs"
              "cards.pdf" ["README.md"; "notes.txt"]%string eq_refl)
    as (r & E & P & C); [by repeat constructor | reflexivity |].
  exists r. split; [exact E|]. rewrite P, C. split; reflexivity.
Defined.

(** X3: when the folder has N > 0 images, the console shows the loading
    line, then one progress text per image, "k/N" for k = 1, ..., N in
    this order (whether the image could be shown or not), then the
    closing lines; the blank-grid notice is not written. *)
Theorem progress_reported_per_image (mm : Q) (w : World)
    (oracle : list nat) (image_folder output_filename : string)
    (entries : list string) :
  os_listdir w image_folder = Ok entries ->
  0 < length (list_images image_folder entries) ->
  writable w output_filename = true ->
  exists r,
    create_pdf_from_folder mm w oracle image_folder output_filename = Ok r /\
    console r =
      [("正在并行加载图片..." ++ LF)%string] ++
      map (fun k =>
             (CR ++ ("生成进度: " ++ pretty k ++ "/"
                     ++ pretty (length (list_images image_folder entries))
                     ++ " 张图片"))%string)
        (seq 1 (length (list_images image_folder entries))) ++
      [LF; ("生成 PDF 文件：" ++ output_filename ++ LF)%string].
Proof.
  intros Hdir Hpos Hout.
  destruct (create_pdf_console mm w oracle image_folder output_filename
              entries Hdir Hout) as (r & E & Hc & _).
  exists r. split; [exact E|]. rewrite Hc. unfold console_so_far.
  destruct (Nat.eqb_spec (length (list_images image_folder entries)) 0);
    [lia|reflexivity].
Qed.

Lemma progress_reported_per_image_witness :
  os_listdir sample_world "cards" = Ok sample_entries /\
  0 < length (list_images "cards" sample_entries) /\
  writable sample_world "cards.pdf" = true /\
  exists r,
    create_pdf_from_folder sample_mm sample_world [2; 0; 1] "cards" "cards.pdf"
      = Ok r /\
    console r =
      [("正在并行加载图片..." ++ LF)%string;
       (CR ++ "生成进度: 1/3 张图片")%string;
       (CR ++ "生成进度: 2/3 张图片")%string;
       (CR ++ "生成进度: 3/3 张图片")%string;
       LF; ("生成 PDF 文件：cards.pdf" ++ LF)%string].
Proof.
  split; [reflexivity|]. split; [vm_compute; lia|]. split; [reflexivity|].
  destruct (progress_reported_per_image sample_mm sample_world [2; 0; 1]
              "cards" "cards.pdf" sample_entries eq_refl)
    as (r & E & C); [vm_compute; lia | reflexivity |].
  exists r. split; [exact E|]. rewrite C. reflexivity.
Defined.

(** *** The layout on the page *)

Lemma Qnat_bounds n m : n <= m -> (0 <= Qnat n /\ Qnat n <= Qnat m)%Q.
Proof.
  intros H. split; [|by apply Qnat_le].
  change 0%Q with (Qnat 0). apply Qnat_le. lia.
Qed.

(** X4: every card box lies inside the grid, a gap away from its border,
    and the grid lies inside the A4 page with positive margins on all
    four sides: nothing is drawn off the page. *)
Theorem cells_lie_inside_the_grid (mm : Q) (row col : nat) :
  (0 < mm)%Q ->
  row < rows ->
  col < columns ->
  (left_margin mm + gap mm <= cell_x mm col /\
   cell_x mm col + card_width mm + gap mm <= left_margin mm + grid_width mm /\
   bottom_margin mm + gap mm <= cell_y mm row /\
   cell_y mm row + card_height mm + gap mm
     <= bottom_margin mm + grid_height mm /\
   0 < left_margin mm /\
   0 < bottom_margin mm /\
   left_margin mm + grid_width mm < page_width mm /\
   bottom_margin mm + grid_height mm < page_height mm)%Q.
Proof.
  intros Hmm Hr Hc.
  pose proof (cell_x_mm mm col) as X. pose proof (cell_y_mm mm row) as Y.
  pose proof (grid_width_mm mm) as W. pose proof (grid_height_mm mm) as H.
  pose proof (left_margin_mm mm) as L. pose proof (bottom_margin_mm mm) as B.
  assert (PW : (page_width mm == 210 * mm)%Q) by reflexivity.
  assert (PH : (page_height mm == 297 * mm)%Q) by reflexivity.
  assert (Hg : (gap mm == 2 * mm)%Q) by reflexivity.
  assert (Hw : (card_width mm == 59 * mm)%Q) by reflexivity.
  assert (Hh : (card_height mm == 86 * mm)%Q) by reflexivity.
  destruct (Qnat_bounds col 2) as [C0 C2]; [unfold columns in Hc; lia|].
  destruct (Qnat_bounds row 2) as [R0 R2]; [unfold rows in Hr; lia|].
  change (Qnat 2) with 2%Q in C2, R2.
  repeat split; nra.
Qed.

Lemma cells_lie_inside_the_grid_witness :
  (0 < sample_mm)%Q /\ 2 < rows /\ 0 < columns /\
  (cell_x sample_mm 0 + card_width sample_mm + gap sample_mm
     <= left_margin sample_mm + grid_width sample_mm)%Q /\
  (0 < left_margin sample_mm)%Q.
Proof.
  split; [reflexivity|]. split; [unfold rows; lia|].
  split; [unfold columns; lia|].
  destruct (cells_lie_inside_the_grid sample_mm 2 0)
    as (_ & H & _ & _ & L & _);
    [reflexivity | unfold rows; lia | unfold columns; lia |].
  by split.
Defined.

(** X5: two different cells never share an interior point, and cells next
    to each other are exactly one gap apart, horizontally and
    vertically. *)
Theorem cards_do_not_overlap (mm : Q) (row col row' col' : nat)
    (px py : Q) :
  (0 < mm)%Q ->
  (row, col) <> (row', col') ->
  (inside (cell_x mm col) (cell_y mm row) (card_width mm) (card_height mm)
     px py ->
   inside (cell_x mm col') (cell_y mm row') (card_width mm) (card_height mm)
     px py ->
   False) /\
  (cell_x mm (S col) == cell_x mm col + card_width mm + gap mm)%Q /\
  (cell_y mm row == cell_y mm (S row) + card_height mm + gap mm)%Q.
Proof.
  intros Hmm Hne.
  assert (Hw : (card_width mm == 59 * mm)%Q) by reflexivity.
  assert (Hh : (card_height mm == 86 * mm)%Q) by reflexivity.
  assert (Hg : (gap mm == 2 * mm)%Q) by reflexivity.
  pose proof (cell_x_mm mm col) as X. pose proof (cell_x_mm mm col') as X'.
  pose proof (cell_y_mm mm row) as Y. pose proof (cell_y_mm mm row') as Y'.
  split; [|split].
  - unfold inside. intros (A1 & A2 & A3 & A4) (B1 & B2 & B3 & B4).
    assert (Hcases : col < col' \/ col' < col \/ row < row' \/ row' < row).
    { destruct (Nat.eq_dec row row') as [->|];
        destruct (Nat.eq_dec col col') as [->|]; try lia.
      by destruct Hne. }
    destruct Hcases as [H|[H|[H|H]]];
      apply Qnat_le in H; rewrite Qnat_S in H; nra.
  - pose proof (cell_x_mm mm (S col)) as XS. rewrite Qnat_S in XS. lra.
  - pose proof (cell_y_mm mm (S row)) as YS. rewrite Qnat_S in YS. lra.
Qed.

Lemma cards_do_not_overlap_witness :
  (0 < sample_mm)%Q /\ (0, 1) <> (0, 2) /\
  (inside (cell_x sample_mm 1) (cell_y sample_mm 0)
     (card_width sample_mm) (card_height sample_mm) 300 700 ->
   inside (cell_x sample_mm 2) (cell_y sample_mm 0)
     (card_width sample_mm) (card_height sample_mm) 300 700 ->
   False).
Proof.
  split; [reflexivity|]. split; [discriminate|].
  apply (cards_do_not_overlap sample_mm 0 1 0 2 300 700);
    [reflexivity | discriminate].
Defined.

(** X6: the guide squares sit corner to corner with the cards.  The
    square at crossing (v, h) ends where column v begins and the square at
    (col + 1, h) begins where column col ends; likewise below and above
    each row.  All sixteen squares lie inside the grid. *)
Theorem guides_touch_the_cards (mm : Q) :
  (forall v, x_square mm v + gap mm == cell_x mm v)%Q /\
  (forall col, x_square mm (S col) == cell_x mm col + card_width mm)%Q /\
  (forall row, row < rows ->
     (y_square mm (rows - 1 - row) + gap mm == cell_y mm row)%Q /\
     (y_square mm (rows - row) == cell_y mm row + card_height mm)%Q) /\
  ((0 < mm)%Q ->
   forall v h, v <= columns -> h <= rows ->
     (left_margin mm <= x_square mm v /\
      x_square mm v + gap mm <= left_margin mm + grid_width mm /\
      bottom_margin mm <= y_square mm h /\
      y_square mm h + gap mm <= bottom_margin mm + grid_height mm)%Q).
Proof.
  assert (Hw : (card_width mm == 59 * mm)%Q) by reflexivity.
  assert (Hh : (card_height mm == 86 * mm)%Q) by reflexivity.
  assert (Hg : (gap mm == 2 * mm)%Q) by reflexivity.
  assert (XS : forall v, (x_square mm v == (25 # 2) * mm + 61 * Qnat v * mm)%Q).
  { intros v. unfold x_square. rewrite left_margin_mm, Hw, Hg. ring. }
  assert (YS : forall h, (y_square mm h == (31 # 2) * mm + 88 * Qnat h * mm)%Q).
  { intros h. unfold y_square. rewrite bottom_margin_mm, Hh, Hg. ring. }
  split; [|split; [|split]].
  - intros v. rewrite XS, cell_x_mm, Hg. ring.
  - intros col. rewrite XS, cell_x_mm, Qnat_S, Hw. ring.
  - intros row Hr. unfold rows in *. rewrite !YS, cell_y_mm, Hg, Hh.
    destruct row as [|[|[|?]]]; [| | |lia];
      cbn [Nat.sub];
      repeat match goal with
             | |- context [Qnat ?n] =>
                 let v := eval vm_compute in (Qnat n) in
                 change (Qnat n) with v
             end;
      split; ring.
  - intros Hmm v h Hv Hh'.
    pose proof (XS v) as X. pose proof (YS h) as Y.
    pose proof (grid_width_mm mm) as W. pose proof (grid_height_mm mm) as H.
    pose proof (left_margin_mm mm) as L. pose proof (bottom_margin_mm mm) as B.
    destruct (Qnat_bounds v 3) as [V0 V3]; [unfold columns in Hv; lia|].
    destruct (Qnat_bounds h 3) as [H0 H3]; [unfold rows in Hh'; lia|].
    change (Qnat 3) with 3%Q in V3, H3.
    repeat split; nra.
Qed.

(** *** What load_image returns *)

Lemma in_bytes z : in_byte z = true -> In z bytes.
Proof.
  unfold in_byte, bytes. rewrite andb_true_iff, !Z.leb_le. intros [H0 H1].
  apply in_map_iff. exists (Z.to_nat z). split; [lia|].
  apply in_seq. lia.
Qed.

Lemma composite_over_white r g b a :
  PIL.composite_pixel white (r, g, b, a) =
  if (a =? 0)%Z then white
  else (PIL.blend_band r 255 (coef1_white a) (coef2_white a),
        PIL.blend_band g 255 (coef1_white a) (coef2_white a),
        PIL.blend_band b 255 (coef1_white a) (coef2_white a),
        alpha_white a).
Proof. reflexivity. Qed.

Lemma white_blend_checked : forallb alpha_ok bytes = true.
Proof. vm_compute. reflexivity. Qed.

Lemma white_blend_band s a :
  in_byte s = true -> in_byte a = true -> a <> 0%Z ->
  PIL.blend_band s 255 (coef1_white a) (coef2_white a) = white_mix s a /\
  (s <= white_mix s a <= 255)%Z /\
  alpha_white a = 255%Z.
Proof.
  intros Hs Ha Hne.
  destruct (forallb_forall alpha_ok bytes) as [F _].
  specialize (F white_blend_checked a (in_bytes a Ha)).
  unfold alpha_ok in F. apply orb_true_iff in F as [F|F].
  { apply Z.eqb_eq in F. contradiction. }
  apply andb_true_iff in F as [Halpha F].
  destruct (forallb_forall (band_ok a (coef1_white a) (coef2_white a)) bytes)
    as [G _].
  specialize (G F s (in_bytes s Hs)). unfold band_ok in G. cbv zeta in G.
  apply andb_true_iff in G as [G U]. apply andb_true_iff in G as [E L].
  apply Z.eqb_eq in E. apply Z.eqb_eq in Halpha.
  apply Z.leb_le in L. apply Z.leb_le in U.
  rewrite <- E. split; [reflexivity|]. split; [|exact Halpha].
  split; [exact L | exact U].
Qed.

Lemma white_mix_transparent s : white_mix s 0 = 255%Z.
Proof. unfold white_mix. rewrite Z.mul_0_r. reflexivity. Qed.

(** Over white, a pixel becomes the rounded blend of its colour with
    white, fully opaque. *)
Lemma composite_pixel_over_white r g b a :
  in_byte r = true -> in_byte g = true -> in_byte b = true ->
  in_byte a = true ->
  PIL.composite_pixel white (r, g, b, a) =
  (white_mix r a, white_mix g a, white_mix b a, 255%Z).
Proof.
  intros Hr Hg Hb Ha. rewrite composite_over_white.
  destruct (Z.eqb_spec a 0) as [->|Hne];
    [by rewrite !white_mix_transparent|].
  destruct (white_blend_band r a Hr Ha Hne) as (-> & _ & ->).
  destruct (white_blend_band g a Hg Ha Hne) as (-> & _ & _).
  by destruct (white_blend_band b a Hb Ha Hne) as (-> & _ & _).
Qed.

Lemma white_mix_bounds s a :
  in_byte s = true -> in_byte a = true -> (s <= white_mix s a <= 255)%Z.
Proof.
  intros Hs Ha. destruct (Z.eqb_spec a 0) as [->|Hne].
  - rewrite white_mix_transparent. unfold in_byte in Hs.
    apply andb_true_iff in Hs as [_ Hs]. apply Z.leb_le in Hs. lia.
  - by destruct (white_blend_band s a Hs Ha Hne) as (_ & ? & _).
Qed.

Lemma composite_data_over_white (d : list PIL.rgba) :
  forallb (fun '(r, g, b, a) =>
             in_byte r && in_byte g && in_byte b && in_byte a) d = true ->
  PIL.composite_data (repeat white (length d)) d =
  map (fun '(r, g, b, a) =>
         (white_mix r a, white_mix g a, white_mix b a, 255%Z)) d.
Proof.
  induction d as [|[[[r g] b] a] d IH]; [reflexivity|].
  cbn [forallb length repeat PIL.composite_data map].
  rewrite !andb_true_iff. intros [[[[Hr Hg] Hb] Ha] Hd].
  by rewrite composite_pixel_over_white, IH.
Qed.

(** X7: an RGBA image whose bands are bytes is flattened onto white
    exactly: every pixel (r, g, b, a) of the file becomes the RGB pixel
    whose bands are (s a + 255 (255 - a)) / 255 rounded to the nearest
    integer.  Each band of the result lies between the band of the file
    and white, and a fully transparent pixel becomes white. *)
Theorem transparency_is_flattened_onto_white (w : World) (path : string)
    (f : PIL.ImageFile) (d : list PIL.rgba) :
  Image_open w path = Ok f ->
  PIL.decode f = Ok (PIL.ModeRGBA d) ->
  well_formed {| PIL.size := PIL.header_size f;
                 PIL.data := PIL.ModeRGBA d |} = true ->
  load_image w path =
    Some {| reader_image :=
      {| PIL.size := PIL.header_size f;
         PIL.data := PIL.ModeRGB
           (map (fun '(r, g, b, a) =>
                   (white_mix r a, white_mix g a, white_mix b a)) d) |} |} /\
  Forall (fun '(r, g, b, a) =>
            (r <= white_mix r a <= 255)%Z /\
            (g <= white_mix g a <= 255)%Z /\
            (b <= white_mix b a <= 255)%Z /\
            (a = 0%Z -> white_mix r a = 255%Z /\ white_mix g a = 255%Z /\
                        white_mix b a = 255%Z)) d.
Proof.
  intros Hopen Hdec Hwf. unfold well_formed in Hwf.
  cbn [PIL.size PIL.data pixel_count bands_in_range] in Hwf.
  apply andb_true_iff in Hwf as [Hlen Hb]. apply Nat.eqb_eq in Hlen.
  split.
  - unfold load_image.
    rewrite load_image_try_unfold, Hopen, bind_Ok. unfold PIL.load.
    rewrite Hdec, !bind_Ok.
    unfold PIL.alpha_composite, PIL.convert_RGBA, PIL.new_RGBA.
    cbn [PIL.size PIL.data]. rewrite decide_True by reflexivity.
    rewrite <- Hlen, composite_data_over_white, bind_Ok by exact Hb.
    unfold PIL.convert_RGB. cbn [PIL.size PIL.data].
    rewrite map_map. do 4 f_equal. apply map_ext. by intros [[[r g] b] a].
  - rewrite forallb_forall in Hb. apply Forall_forall.
    intros [[[r g] b] a] Hin. apply list_elem_of_In in Hin.
    specialize (Hb _ Hin). cbn in Hb. rewrite !andb_true_iff in Hb.
    destruct Hb as [[[Hr Hg] Hb] Ha].
    split; [by apply white_mix_bounds|].
    split; [by apply white_mix_bounds|].
    split; [by apply white_mix_bounds|].
    intros ->. by rewrite !white_mix_transparent.
Qed.

Lemma transparency_is_flattened_onto_white_witness :
  Image_open translucent_world "t.png" = Ok sample_translucent /\
  PIL.decode sample_translucent =
    Ok (PIL.ModeRGBA [(10, 20, 30, 128); (1, 2, 3, 0)]%Z) /\
  load_image translucent_world "t.png" =
    Some {| reader_image :=
      {| PIL.size := (2, 1);
         PIL.data := PIL.ModeRGB [(132, 137, 142); (255, 255, 255)]%Z |} |}.
Proof.
  split; [reflexivity|]. split; [reflexivity|].
  destruct (transparency_is_flattened_onto_white translucent_world "t.png"
              sample_translucent [(10, 20, 30, 128); (1, 2, 3, 0)]%Z
              eq_refl eq_refl eq_refl) as [H _].
  rewrite H. reflexivity.
Defined.

Lemma composite_data_length (d1 d2 : list PIL.rgba) :
  length (PIL.composite_data d1 d2) = Nat.min (length d1) (length d2).
Proof.
  revert d2. induction d1 as [|x d1 IH]; intros [|y d2]; cbn; try done.
  by rewrite IH.
Qed.

(** Compositing onto a background made for the image cannot fail. *)
Lemma alpha_composite_succeeds img :
  exists d,
    PIL.alpha_composite
      (PIL.new_RGBA (PIL.size (PIL.convert_RGBA img)) white)
      (PIL.convert_RGBA img)
    = Ok {| PIL.size := PIL.size img; PIL.data := PIL.ModeRGBA d |} /\
    length d =
      Nat.min (fst (PIL.size img) * snd (PIL.size img))
        (pixel_count (PIL.data img)).
Proof.
  unfold PIL.alpha_composite, PIL.new_RGBA, PIL.convert_RGBA.
  cbn [PIL.size PIL.data]. rewrite decide_True by reflexivity.
  eexists. split; [reflexivity|].
  rewrite composite_data_length, repeat_length. f_equal.
  destruct (PIL.data img); cbn [pixel_count]; by rewrite ?length_map.
Qed.

(** X8: load_image returns [None] exactly when the file cannot be opened
    or its pixels cannot be decoded; the compositing step never fails.
    For a file that opens and decodes, the result is an RGB image of the
    size announced by the file. *)
Theorem load_image_fails_only_on_open_or_decode (w : World) (path : string) :
  (load_image w path = None <->
   (exists e, Image_open w path = Raise e) \/
   (exists f e, Image_open w path = Ok f /\ PIL.decode f = Raise e)) /\
  (forall f d,
     Image_open w path = Ok f -> PIL.decode f = Ok d ->
     exists rgb,
       load_image w path =
         Some {| reader_image :=
           {| PIL.size := PIL.header_size f; PIL.data := PIL.ModeRGB rgb |} |}
       /\ length rgb =
            Nat.min (fst (PIL.header_size f) * snd (PIL.header_size f))
              (pixel_count d)).
Proof.
  assert (Hok : forall f d,
            Image_open w path = Ok f -> PIL.decode f = Ok d ->
            exists rgb,
              load_image w path =
                Some {| reader_image :=
                  {| PIL.size := PIL.header_size f;
                     PIL.data := PIL.ModeRGB rgb |} |}
              /\ length rgb =
                   Nat.min (fst (PIL.header_size f) * snd (PIL.header_size f))
                     (pixel_count d)).
  { intros f d Hopen Hdec. unfold load_image.
    rewrite load_image_try_unfold, Hopen, bind_Ok. unfold PIL.load.
    rewrite Hdec, !bind_Ok.
    destruct (alpha_composite_succeeds
                {| PIL.size := PIL.header_size f; PIL.data := d |})
      as (c & -> & Hlen).
    rewrite bind_Ok. unfold PIL.convert_RGB. cbn [PIL.size PIL.data] in *.
    eexists. split; [reflexivity|]. by rewrite length_map. }
  split; [|exact Hok]. split.
  - intros Hnone. destruct (Image_open w path) as [f|e] eqn:Hopen.
    + right. destruct (PIL.decode f) as [d|e] eqn:Hdec; [|by exists f, e].
      destruct (Hok f d eq_refl Hdec) as (rgb & Hsome & _). congruence.
    + left. by exists e.
  - intros [[e He]|(f & e & Hf & He)].
    + by apply (load_image_open_fails w path e).
    + by apply (load_image_decode_fails w path f e).
Qed.

(** *** The order of the directory listing *)

Lemma Sorted_le l :
  Sorted (fun a b => String.leb a b = true) l -> Sorted String.le l.
Proof.
  induction 1 as [|x l Hs IH Hd]; constructor; [exact IH|].
  destruct Hd as [|y l Hxy]; constructor.
  unfold String.le. by rewrite Hxy.
Qed.

(** Sorting does not depend on the order of its input. *)
Lemma sort_permutation l l' : Permutation l l' -> sort l = sort l'.
Proof.
  intros Hp. apply (Sorted_unique String.le).
  - apply Sorted_le, sort_sorted.
  - apply Sorted_le, sort_sorted.
  - by rewrite !sort_perm.
Qed.

(** X9: the images considered do not depend on the order in which the
    operating system lists the folder: any two listings with the same
    entries give the same sequence of paths. *)
Theorem listing_order_is_irrelevant (image_folder : string)
    (entries entries' : list string) :
  Permutation entries entries' ->
  list_images image_folder entries = list_images image_folder entries'.
Proof.
  intros Hp. unfold list_images. apply sort_permutation.
  apply Permutation_map. by rewrite Hp.
Qed.

Lemma listing_order_is_irrelevant_witness :
  Permutation sample_entries ["notes.txt"; "c.gif"; "a.jpg"; "b.PNG"]%string /\
  list_images "cards" sample_entries =
  list_images "cards" ["notes.txt"; "c.gif"; "a.jpg"; "b.PNG"]%string.
Proof.
  assert (Hp : Permutation sample_entries
                 ["notes.txt"; "c.gif"; "a.jpg"; "b.PNG"]%string).
  { unfold sample_entries.
    apply (perm_trans (l' := ["a.jpg"; "b.PNG"; "notes.txt"; "c.gif"]%string));
      [apply perm_swap|].
    apply (perm_trans (l' := ["a.jpg"; "notes.txt"; "b.PNG"; "c.gif"]%string));
      [apply perm_skip, perm_swap|].
    apply (perm_trans (l' := ["notes.txt"; "a.jpg"; "b.PNG"; "c.gif"]%string));
      [apply perm_swap|].
    apply perm_skip.
    apply (perm_trans (l' := ["a.jpg"; "c.gif"; "b.PNG"]%string));
      [apply perm_skip, perm_swap|].
    apply perm_swap. }
  split; [exact Hp|].
  exact (listing_order_is_irrelevant "cards" sample_entries _ Hp).
Defined.

(** *** How many cards a page shows *)

Lemma entry_ops_cards mm w e x y :
  length (List.filter shows_card (entry_ops mm w e x y)) =
  match e with Some _ => 1 | None => 0 end.
Proof.
  destruct e as [[path [img|]]|]; cbn [entry_ops]; try reflexivity.
  by destruct (drawImage_raises w img).
Qed.

Lemma cell_ops_cards mm w (loaded : list (string * option ImageReader))
    k row col :
  length (List.filter shows_card (cell_ops mm w loaded k row col)) =
  if (k <? length loaded)%nat then 1 else 0.
Proof.
  unfold cell_ops. rewrite entry_ops_cards.
  destruct (Nat.ltb_spec k (length loaded)) as [Hlt|Hge].
  - by destruct (lookup_lt_is_Some_2 loaded k Hlt) as [e ->].
  - by rewrite lookup_ge_None_2.
Qed.

Lemma column_shows_no_card mm v (hs : list nat) :
  List.filter shows_card
    (flat_map (fun h => [SetLineWidth (1 # 2); guide_square mm v h]) hs) = [].
Proof. induction hs as [|h hs IH]; [reflexivity | exact IH]. Qed.

Lemma guides_show_no_card mm (vs hs : list nat) :
  List.filter shows_card
    (flat_map (fun v =>
       flat_map (fun h => [SetLineWidth (1 # 2); guide_square mm v h]) hs)
       vs) = [].
Proof.
  induction vs as [|v vs IH]; [reflexivity|].
  cbn [flat_map]. by rewrite List.filter_app, IH, column_shows_no_card.
Qed.

Lemma expected_page_cards mm w (loaded : list (string * option ImageReader))
    page :
  length (List.filter shows_card (expected_page mm w loaded page)) =
  Nat.min 9 (length loaded - 9 * page).
Proof.
  unfold expected_page, page_guides.
  rewrite List.filter_app, guides_show_no_card, app_nil_r.
  unfold page_cells. cbn [flat_map seq].
  rewrite !List.filter_app, !length_app, !cell_ops_cards. cbn [List.filter length].
  repeat match goal with
         | |- context [(?a <? ?b)%nat] =>
             destruct (Nat.ltb_spec a b); try lia
         end.
Qed.

Lemma num_pages_tight n : 0 < n -> 9 * num_pages n < n + 9.
Proof.
  intros Hn. unfold num_pages, cards_per_page.
  destruct (Nat.ltb_spec 0 n); [|lia].
  pose proof (Nat.div_mod_eq (n + 9 - 1) 9).
  pose proof (Nat.mod_upper_bound (n + 9 - 1) 9).
  lia.
Qed.

(** X10: page p of the document shows exactly min(9, N - 9 p) cards, an
    image or an error label for each.  Hence every page before the last
    is full, and when there is at least one image no page is empty. *)
Theorem each_page_shows_its_share (mm : Q) (w : World) (total_cards : nat)
    (loaded_images : list (string * option ImageReader))
    (output_filename : string) (out : list string) :
  length loaded_images = total_cards ->
  exists st',
    render_pages mm w total_cards loaded_images
      {| canvas := Canvas_new output_filename; card_index := 0;
         stdout := out |} = Ok st' /\
    (forall page ops,
       pages (canvas st') !! page = Some ops ->
       length (List.filter shows_card ops) =
       Nat.min 9 (total_cards - 9 * page)) /\
    (forall page, S page < num_pages total_cards ->
       Nat.min 9 (total_cards - 9 * page) = 9) /\
    (0 < total_cards ->
     forall page, page < num_pages total_cards ->
       0 < Nat.min 9 (total_cards - 9 * page)).
Proof.
  intros Hlen.
  destruct (render_pages_lookup mm w total_cards loaded_images
              output_filename out Hlen) as (st' & E & L & _ & P).
  exists st'. split; [exact E|]. split; [|split].
  - intros page ops Hops.
    assert (Hp : page < num_pages total_cards).
    { apply lookup_lt_Some in Hops. lia. }
    rewrite (P page Hp) in Hops. injection Hops as <-.
    by rewrite expected_page_cards, Hlen.
  - intros page Hp. destruct (Nat.eq_dec total_cards 0) as [->|Hn].
    + cbn in Hp. lia.
    + pose proof (num_pages_tight total_cards). lia.
  - intros Hpos page Hp. pose proof (num_pages_tight total_cards Hpos). lia.
Qed.

Lemma each_page_shows_its_share_witness :
  length sample_loaded = 3 /\
  exists st',
    render_pages sample_mm sample_world 3 sample_loaded
      {| canvas := Canvas_new "cards.pdf"; card_index := 0;
         stdout := [] |} = Ok st' /\
    (forall page ops,
       pages (canvas st') !! page = Some ops ->
       length (List.filter shows_card ops) = Nat.min 9 (3 - 9 * page)).
Proof.
  split; [reflexivity|].
  destruct (each_page_shows_its_share sample_mm sample_world 3 sample_loaded
              "cards.pdf" [] eq_refl) as (st' & E & H & _).
  exists st'. split; [exact E | exact H].
Defined.

(** *** What a run depends on *)

Lemma for_each_ext {A S : Type} (l : list A) (body body' : A -> S -> result S) :
  (forall x st, body x st = body' x st) ->
  forall st, for_each l body st = for_each l body' st.
Proof.
  intros H. induction l as [|x l IH]; intros st; [reflexivity|].
  cbn [for_each]. rewrite H. destruct (body' x st); [apply IH|reflexivity].
Qed.

Lemma draw_cell_world mm w w' total_cards loaded_images row col st :
  (forall img, drawImage_raises w' img = drawImage_raises w img) ->
  draw_cell mm w' total_cards loaded_images row col st =
  draw_cell mm w total_cards loaded_images row col st.
Proof.
  intros H. unfold draw_cell, drawImage.
  destruct (card_index st <? total_cards)%nat; [|reflexivity].
  destruct (loaded_images !! card_index st) as [[path [img|]]|];
    [|reflexivity..].
  by rewrite H.
Qed.

Lemma render_pages_world mm w w' total_cards loaded_images st :
  (forall img, drawImage_raises w' img = drawImage_raises w img) ->
  render_pages mm w' total_cards loaded_images st =
  render_pages mm w total_cards loaded_images st.
Proof.
  intros H. unfold render_pages, for_range. revert st.
  apply for_each_ext. intros page st. rewrite !render_page_unfold.
  replace (for_range rows (fun row => for_range columns (fun col =>
             draw_cell mm w' total_cards loaded_images row col)) st)
    with (for_range rows (fun row => for_range columns (fun col =>
             draw_cell mm w total_cards loaded_images row col)) st);
    [reflexivity|].
  unfold for_range. revert st. apply for_each_ext. intros row st.
  revert st. apply for_each_ext. intros col st.
  symmetry. by apply draw_cell_world.
Qed.

Lemma load_image_world w w' path :
  Image_open w' path = Image_open w path ->
  load_image w' path = load_image w path.
Proof.
  intros H. unfold load_image. by rewrite !load_image_try_unfold, H.
Qed.

(** X11: the document and the console of a run do not depend on the order
    in which the thread pool completes the loads. *)
Theorem scheduling_does_not_change_the_run (mm : Q) (w : World)
    (oracle oracle' : list nat) (image_folder output_filename : string) :
  create_pdf_from_folder mm w oracle image_folder output_filename =
  create_pdf_from_folder mm w oracle' image_folder output_filename.
Proof.
  rewrite !create_pdf_unfold.
  destruct (os_listdir w image_folder) as [entries|e]; [|reflexivity].
  rewrite !bind_Ok.
  by rewrite (preload_images_spec w oracle), (preload_images_spec w oracle').
Qed.

(** X12: a run opens no file but the listed images: changing what
    [Image.open] answers for any other path changes neither the document
    nor the console, nor whether the run fails. *)
Theorem only_listed_images_are_opened (mm : Q) (w : World)
    (oracle : list nat) (image_folder output_filename : string)
    (entries : list string) (open' : string -> result PIL.ImageFile) :
  os_listdir w image_folder = Ok entries ->
  (forall path, path ∈ list_images image_folder entries ->
     open' path = Image_open w path) ->
  create_pdf_from_folder mm
    {| os_listdir := os_listdir w; Image_open := open';
       drawImage_raises := drawImage_raises w; writable := writable w;
       open_error := open_error w |}
    oracle image_folder output_filename =
  create_pdf_from_folder mm w oracle image_folder output_filename.
Proof.
  intros Hdir Hopen. rewrite !create_pdf_unfold. cbn [os_listdir].
  rewrite Hdir, !bind_Ok.
  set (w' := {| os_listdir := os_listdir w; Image_open := open';
                drawImage_raises := drawImage_raises w;
                writable := writable w; open_error := open_error w |}).
  assert (Hload : preload_images w' oracle (list_images image_folder entries) =
                  preload_images w oracle (list_images image_folder entries)).
  { rewrite !preload_images_spec. f_equal. apply map_ext_in.
    intros path Hin. apply load_image_world. apply Hopen.
    by apply list_elem_of_In. }
  rewrite Hload, (render_pages_world mm w w') by reflexivity.
  destruct (render_pages mm w _ _ _) as [st|e]; [|reflexivity].
  rewrite !bind_Ok. reflexivity.
Qed.

Lemma only_listed_images_are_opened_witness :
  os_listdir sample_world "cards" = Ok sample_entries /\
  create_pdf_from_folder sample_mm
    {| os_listdir := os_listdir sample_world;
       Image_open := fun p =>
         if String.eqb p "cards/notes.txt" then Ok sample_translucent
         else Image_open sample_world p;
       drawImage_raises := drawImage_raises sample_world;
       writable := writable sample_world;
       open_error := open_error sample_world |}
    [2; 0; 1] "cards" "cards.pdf" =
  create_pdf_from_folder sample_mm sample_world [2; 0; 1] "cards" "cards.pdf".
Proof.
  split; [reflexivity|].
  apply (only_listed_images_are_opened sample_mm sample_world [2; 0; 1]
           "cards" "cards.pdf" sample_entries); [reflexivity|].
  intros path Hin.
  change (list_images "cards" sample_entries)
    with ["cards/a.jpg"; "cards/b.PNG"; "cards/c.gif"]%string in Hin.
  rewrite !elem_of_cons, elem_of_nil in Hin.
  destruct Hin as [->|[->|[->|[]]]]; reflexivity.
Defined.
